(** * The prediction cache of [ML_MODEL] (CommissionWorkAccountingMain/main.py)

    A shallow embedding of the class [ML_MODEL]: its three fields, the two
    files it keeps next to the program, the [jobs] table it queries, and the
    methods [predict], [incrementDbChangeCounter], [markDirtyIDs], [reset],
    [_train], [_readModelConfigFilepath], [_writeModelConfigFilepath],
    [_calculateRetrainLoadFactor], [_predictAndCacheEverything] and
    [_predictAndCacheDirtyIDs].

    Python floats are IEEE 754 binary64 numbers and are modelled by Rocq's
    primitive floats; Python integers by [Z]; the dictionary
    [self.predictionCache] by a [gmap Z float].  Methods mutate the object,
    the files and raise exceptions, so they are functions in a state and
    error monad over [State].  Every call that leaves the process
    ([os.path.exists], [json], [joblib], [os.remove], [cursor.execute]) is
    also recorded in the [trace] of the state, oldest call first.

    The database answers every query (a failing query ends the process in
    [error]), modelConfig.json parses whenever it is there, and pandas,
    numpy and scikit-learn are taken at their documented behaviour: the
    quantile of pandas is written out in [Num], the fitted pipeline and
    [numpy.log] / [numpy.exp] are an interface, [Libraries]. *)

From Stdlib Require Import Floats.PrimFloat.
From Stdlib Require Floats.FloatOps Floats.SpecFloat Floats.FloatAxioms.
From Stdlib Require Numbers.Cyclic.Int63.Uint63.
From Stdlib Require Import ZArith List Strings.Ascii Sorting.Sorted.
From stdpp Require Import base option list gmap strings.

Local Open Scope Z_scope.
#[local] Set Warnings "-clear-no-such-hyp".

(** ** Numbers *)

Module Num.

(** The float of a Python integer.  It is exact below 2^53 in absolute
    value, which row and change counts are, and there Python's [int / int]
    is the quotient of the two floats. *)
Definition float_of_int (z : Z) : float :=
  if z <? 0 then PrimFloat.opp (PrimFloat.of_uint63 (Uint63.of_Z (- z)))
  else PrimFloat.of_uint63 (Uint63.of_Z z).

Definition is_nan (x : float) : bool := negb (PrimFloat.eqb x x).

(** [x >= y] and [x <= y] on floats: false as soon as one side is NaN. *)
Definition le (x y : float) : bool := PrimFloat.leb x y.
Definition ge (x y : float) : bool := PrimFloat.leb y x.

(** The integer part of a finite float that is not negative (0 for any
    other float). *)
Definition floor (x : float) : Z :=
  match FloatOps.Prim2SF x with
  | SpecFloat.S754_finite false m e => Z.shiftl (Z.pos m) e
  | _ => 0
  end.

Fixpoint insert_sorted (x : float) (l : list float) : list float :=
  match l with
  | [] => [x]
  | y :: l' => if le x y then x :: l else y :: insert_sorted x l'
  end.

Definition sort (l : list float) : list float :=
  foldr insert_sorted [] l.

(** numpy's interpolation between two neighbours [a] and [b] at the
    fraction [t] ([_lerp]): [a + (b - a) * t], replaced by
    [b - (b - a) * (1 - t)] where [t >= 0.5]. *)
Definition lerp (a b t : float) : float :=
  let diff_b_a := PrimFloat.sub b a in
  if PrimFloat.leb 0.5 t
  then PrimFloat.sub b (PrimFloat.mul diff_b_a (PrimFloat.sub 1 t))
  else PrimFloat.add a (PrimFloat.mul diff_b_a t).

(** pandas' [Series.quantile(q)] for [0 <= q <= 1] with its default linear
    interpolation, which is [numpy.percentile] on the values that are not
    missing: an empty series gives NaN; otherwise the sorted values are
    read at the two indexes around the virtual index [(n - 1) * q] and
    interpolated by [_lerp] at its fractional part.  A virtual index at or
    past the last index reads the last value twice (index [-1], so that
    the fraction is the virtual index plus 1). *)
Definition quantile (q : float) (xs : list float) : float :=
  let v := sort (filter (λ x, is_nan x = false) xs) in
  match v with
  | [] => PrimFloat.nan
  | x0 :: _ =>
      let n := Z.of_nat (length v) in
      let virtual_index := PrimFloat.mul (float_of_int (n - 1)) q in
      if PrimFloat.leb (float_of_int (n - 1)) virtual_index then
        let last := nth (Z.to_nat (n - 1)) v x0 in
        lerp last last (PrimFloat.sub virtual_index (float_of_int (-1)))
      else
        let previous_index := floor virtual_index in
        let gamma := PrimFloat.sub virtual_index (float_of_int previous_index) in
        lerp (nth (Z.to_nat previous_index) v x0)
             (nth (Z.to_nat (previous_index + 1)) v x0) gamma
  end.

End Num.

(** ** Exceptions and results *)

Inductive Exn : Type :=
  | KeyError (id : Z)        (* self.predictionCache[id] on an absent id *)
  | AttributeError           (* self.model.predict while self.model is None *)
  | IndexError               (* predictedPayList[i] past the end *)
  | ValueError               (* raised inside scikit-learn *)
  | UnpicklingError.         (* raised inside joblib.load *)

Inductive Result (A : Type) : Type :=
  | Return (a : A)
  | Raise (e : Exn).
Arguments Return {A} a.
Arguments Raise {A} e.

(** ** The libraries the class calls *)

(** One feature row: the columns ["Job Type"] and ["Hours Worked"]. *)
Definition Features : Type := string * float.

(** scikit-learn, numpy and the fitted pipeline are outside the program;
    they are an interface here.  [pipeline_fit] is [Pipeline.fit] on the
    pipeline built in [_train], [pipeline_predict] is [Pipeline.predict]
    (which may raise), [np_log] and [np_exp] are [numpy.log] and
    [numpy.exp] on one number. *)
Class Libraries : Type := {
  Model : Type;
  pipeline_fit : list Features → list float → Model;
  pipeline_predict : Model → list Features → Result (list float);
  np_log : float → float;
  np_exp : float → float
}.

(** What a working [Pipeline.predict] does on a batch with at least one row:
    it returns one number per row. *)
Definition predict_total `{Libraries} : Prop :=
  ∀ (m : Model) (X : list Features),
    X ≠ [] → ∃ ys, pipeline_predict m X = Return ys ∧ length ys = length X.

(** ** Data *)

(** A row of the table [jobs], with the columns the class reads.  [pay] is
    [None] for SQL NULL. *)
Record Job : Type := {
  job_id : Z;
  job_type : string;
  hours_worked : float;
  pay : option float
}.

(** The content of modelConfig.json. *)
Record Config : Type := {
  dbChangeCounter : Z;
  lastTrainedRowCount : Z
}.

Inductive Path : Type := modelConfigFilepath | modelPklFilepath.

Inductive Query : Type :=
  | SelectFeaturesAndPay               (* SELECT job_type, hours_worked, pay FROM jobs *)
  | SelectAllFeatures                  (* SELECT id, job_type, hours_worked FROM jobs *)
  | SelectFeaturesIn (ids : list Z).   (* ... FROM jobs WHERE id IN (ids) *)

Inductive Event : Type :=
  | PathExists (p : Path)
  | JsonLoad
  | JsonDump (c : Config)
  | JoblibLoad
  | JoblibDump
  | Remove (p : Path)
  | Execute (q : Query).

Definition is_fetch (e : Event) : bool :=
  match e with Execute _ => true | _ => false end.

Section ML_MODEL.
Context `{Libraries}.

(** The content of model.pkl: a pipeline written by [joblib.dump], or
    bytes that [joblib.load] cannot turn into an object. *)
Inductive Artifact : Type :=
  | Pickled (m : Model)
  | Unreadable.

Record State : Type := {
  model : option Model;                (* self.model, None until set *)
  predictionCache : gmap Z float;      (* self.predictionCache *)
  jobs : list Job;                     (* the table behind self.dbConn *)
  modelConfigFile : option Config;     (* ./modelConfig.json, None if absent *)
  modelPklFile : option Artifact;      (* ./model.pkl, None if absent *)
  trace : list Event                   (* the outside calls made so far *)
}.

Definition set_model (m : option Model) (st : State) : State :=
  {| model := m; predictionCache := predictionCache st; jobs := jobs st;
     modelConfigFile := modelConfigFile st; modelPklFile := modelPklFile st;
     trace := trace st |}.

Definition set_predictionCache (c : gmap Z float) (st : State) : State :=
  {| model := model st; predictionCache := c; jobs := jobs st;
     modelConfigFile := modelConfigFile st; modelPklFile := modelPklFile st;
     trace := trace st |}.

Definition set_modelConfigFile (f : option Config) (st : State) : State :=
  {| model := model st; predictionCache := predictionCache st; jobs := jobs st;
     modelConfigFile := f; modelPklFile := modelPklFile st;
     trace := trace st |}.

Definition set_modelPklFile (f : option Artifact) (st : State) : State :=
  {| model := model st; predictionCache := predictionCache st; jobs := jobs st;
     modelConfigFile := modelConfigFile st; modelPklFile := f;
     trace := trace st |}.

Definition log (e : Event) (st : State) : State :=
  {| model := model st; predictionCache := predictionCache st; jobs := jobs st;
     modelConfigFile := modelConfigFile st; modelPklFile := modelPklFile st;
     trace := trace st ++ [e] |}.

(** A new [ML_MODEL] object over a table, on a first run: the constructor
    sets no model and an empty cache, and neither file is on disk yet. *)
Definition first_run (table : list Job) : State :=
  {| model := None; predictionCache := ∅; jobs := table;
     modelConfigFile := None; modelPklFile := None; trace := [] |}.

(** *** The monad of methods *)

Definition M (A : Type) : Type := State → Result A * State.

#[export] Instance M_ret : MRet M := λ A a st, (Return a, st).

#[export] Instance M_bind : MBind M := λ A B f c st,
  match c st with
  | (Return a, st') => f a st'
  | (Raise e, st') => (Raise e, st')
  end.

Definition raise {A : Type} (e : Exn) : M A := λ st, (Raise e, st).
Definition gets {A : Type} (f : State → A) : M A := λ st, (Return (f st), st).
Definition modify (f : State → State) : M unit := λ st, (Return tt, f st).
Definition emit (e : Event) : M unit := modify (log e).
Definition lift {A : Type} (r : Result A) : M A := λ st, (r, st).

(** *** Private helper methods *)

Definition on_disk {A : Type} (file : option A) : bool :=
  match file with Some _ => true | None => false end.

Definition path_exists (p : Path) : M bool :=
  emit (PathExists p);;
  gets (λ st, match p with
              | modelConfigFilepath => on_disk (modelConfigFile st)
              | modelPklFilepath => on_disk (modelPklFile st)
              end).

(** modelConfig.json is missing or holds a training state, as every write
    of the program leaves it: [modelConfigFile] is [None] or [Some config].
    A file with other content, on which [json.load] or the look-up of a
    key raises, is not among the states here, so what is proved of a read
    is proved for a file that is missing or holds a training state. *)
Definition _writeModelConfigFilepath (config : Config) : M unit :=
  emit (JsonDump config);;
  modify (set_modelConfigFile (Some config)).

Definition zeroConfig : Config :=
  {| dbChangeCounter := 0; lastTrainedRowCount := 0 |}.

Definition _readModelConfigFilepath : M Config :=
  ex ← path_exists modelConfigFilepath;
  if ex : bool then
    emit JsonLoad;;
    f ← gets modelConfigFile;
    mret (default zeroConfig f)
  else
    _writeModelConfigFilepath zeroConfig;;
    mret zeroConfig.

Definition loadFactor (config : Config) : float :=
  if 0 <? lastTrainedRowCount config
  then PrimFloat.div (Num.float_of_int (dbChangeCounter config))
                     (Num.float_of_int (lastTrainedRowCount config))
  else 0%float.

Definition _calculateRetrainLoadFactor : M float :=
  config ← _readModelConfigFilepath;
  mret (loadFactor config).

(** *** Training *)

(** [df.dropna(subset=["Pay"])]: rows whose pay is NULL (or NaN) go. *)
Definition dropna_pay (df : list (Features * option float))
    : list (Features * float) :=
  omap (λ r, match r.2 with
             | Some p => if Num.is_nan p then None else Some (r.1, p)
             | None => None
             end) df.

(** [df[df["Pay"] != 0]] *)
Definition nonzero_pay (df : list (Features * float))
    : list (Features * float) :=
  filter (λ r, PrimFloat.eqb r.2 0 = false) df.

(** [df["Log Pay"] = np.log(df["Pay"].astype(float))]: each row gets its
    log pay as a third column. *)
Definition with_log_pay (df : list (Features * float))
    : list (Features * float * float) :=
  map (λ r, (r, np_log r.2)) df.

Definition lowerBound (logPay : list float) : float :=
  let Q1 := Num.quantile 0.25 logPay in
  let Q3 := Num.quantile 0.75 logPay in
  let IQR := PrimFloat.sub Q3 Q1 in
  PrimFloat.sub Q1 (PrimFloat.mul 1.5 IQR).

Definition upperBound (logPay : list float) : float :=
  let Q1 := Num.quantile 0.25 logPay in
  let Q3 := Num.quantile 0.75 logPay in
  let IQR := PrimFloat.sub Q3 Q1 in
  PrimFloat.add Q3 (PrimFloat.mul 1.5 IQR).

(** [df[(df["Log Pay"] >= lowerBound) & (df["Log Pay"] <= upperBound)]] *)
Definition exclude_outliers (df : list (Features * float * float))
    : list (Features * float * float) :=
  let logPay := map snd df in
  filter (λ r, Num.ge r.2 (lowerBound logPay) && Num.le r.2 (upperBound logPay) = true) df.

(** The data frame [_train] fits on, from the rows the query returned. *)
Definition preprocess (fetched : list (Features * option float))
    : list (Features * float * float) :=
  exclude_outliers (with_log_pay (nonzero_pay (dropna_pay fetched))).

Definition fetch_features_and_pay (st : State) : list (Features * option float) :=
  map (λ j, ((job_type j, hours_worked j), pay j)) (jobs st).

Definition _train : M unit :=
  emit (Execute SelectFeaturesAndPay);;
  fetched ← gets fetch_features_and_pay;
  let df := preprocess fetched in
  let features := map (λ r, r.1.1) df in
  let label := map snd df in
  if bool_decide (length df = 0%nat) then mret tt
  else
    let fitted := pipeline_fit features label in
    modify (set_model (Some fitted));;
    emit JoblibDump;;
    modify (set_modelPklFile (Some (Pickled fitted)));;
    _writeModelConfigFilepath
      {| dbChangeCounter := 0;
         lastTrainedRowCount := Z.of_nat (length label) |}.

(** *** Prediction *)

(** [for i in range(len(idList)): self.predictionCache[idList[i]] =
    predictedPayList[i]] *)
Fixpoint cachePredictions (idList : list Z) (predictedPayList : list float)
    : M unit :=
  match idList with
  | [] => mret tt
  | id :: idList' =>
      match predictedPayList with
      | [] => raise IndexError
      | predictedPay :: rest =>
          modify (λ st, set_predictionCache
                          (<[id := predictedPay]> (predictionCache st)) st);;
          cachePredictions idList' rest
      end
  end.

(** [np.exp(self.model.predict(featuresList))] *)
Definition model_predict (featuresList : list Features) : M (list float) :=
  m ← gets model;
  match m with
  | None => raise AttributeError
  | Some fitted =>
      logPredictedPayList ← lift (pipeline_predict fitted featuresList);
      mret (map np_exp logPredictedPayList)
  end.

Definition _predictAndCacheEverything : M unit :=
  emit (Execute SelectAllFeatures);;
  data ← gets jobs;
  let idList := map job_id data in
  let featuresList := map (λ j, (job_type j, hours_worked j)) data in
  if bool_decide (length idList = 0%nat) then mret tt
  else
    predictedPayList ← model_predict featuresList;
    modify (set_predictionCache ∅);;
    cachePredictions idList predictedPayList.

Definition _predictAndCacheDirtyIDs (dirtyIDs : list Z) : M unit :=
  if bool_decide (length dirtyIDs = 0%nat) then mret tt
  else
    emit (Execute (SelectFeaturesIn dirtyIDs));;
    data ← gets (λ st, filter (λ j, job_id j ∈ dirtyIDs) (jobs st));
    let idList := map job_id data in
    let featuresList := map (λ j, (job_type j, hours_worked j)) data in
    predictedPayList ← model_predict featuresList;
    cachePredictions idList predictedPayList.

(** *** Public methods *)

(** The three cases of [predict], up to the shared code that returns. *)
Definition refresh (requestedIDs : list Z) : M unit :=
  load ← _calculateRetrainLoadFactor;
  if PrimFloat.ltb 0x1.999999999999ap-3 load then      (* load > 0.2 *)
    _train;;
    _predictAndCacheEverything
  else
    m ← gets model;
    match m with
    | None =>
        ex ← path_exists modelPklFilepath;
        (if ex : bool then
           emit JoblibLoad;;
           f ← gets modelPklFile;
           match f with
           | Some (Pickled loaded) => modify (set_model (Some loaded))
           | _ => raise UnpicklingError
           end
         else _train);;
        _predictAndCacheEverything
    | Some _ =>
        cache ← gets predictionCache;
        let dirtyIDs := filter (λ x, cache !! x = None) requestedIDs in
        if bool_decide (length dirtyIDs ≠ 0%nat)
        then _predictAndCacheDirtyIDs dirtyIDs
        else mret tt
    end.

(** [for id in requestedIDs: predictionsToReturn[id] =
    self.predictionCache[id]] *)
Fixpoint collect (cache : gmap Z float) (requestedIDs : list Z)
    (predictionsToReturn : gmap Z float) : Result (gmap Z float) :=
  match requestedIDs with
  | [] => Return predictionsToReturn
  | id :: rest =>
      match cache !! id with
      | Some p => collect cache rest (<[id := p]> predictionsToReturn)
      | None => Raise (KeyError id)
      end
  end.

Definition predict (requestedIDs : list Z) : M (gmap Z float) :=
  if bool_decide (length requestedIDs = 0%nat) then mret ∅
  else
    refresh requestedIDs;;
    cache ← gets predictionCache;
    lift (collect cache requestedIDs ∅).

Definition incrementDbChangeCounter (x : Z) : M unit :=
  config ← _readModelConfigFilepath;
  _writeModelConfigFilepath
    {| dbChangeCounter := dbChangeCounter config + x;
       lastTrainedRowCount := lastTrainedRowCount config |}.

Definition markDirtyIDs (IDs : list Z) : M unit :=
  modify (λ st, set_predictionCache
                  (foldl (λ c id, delete id c) (predictionCache st) IDs) st).

Definition reset : M unit :=
  modify (set_model None);;
  modify (set_predictionCache ∅);;
  ex ← path_exists modelConfigFilepath;
  (if ex : bool
   then emit (Remove modelConfigFilepath);; modify (set_modelConfigFile None)
   else mret tt);;
  ex ← path_exists modelPklFilepath;
  (if ex : bool
   then emit (Remove modelPklFilepath);; modify (set_modelPklFile None)
   else mret tt).

(** *** Vocabulary of the properties *)

(** The training state a call finds: the content of modelConfig.json, or
    the zeroed one that [_readModelConfigFilepath] creates. *)
Definition current_config (st : State) : Config :=
  default zeroConfig (modelConfigFile st).

(** [load > 0.2] for the training state a call finds. *)
Definition shouldRetrain (st : State) : bool :=
  PrimFloat.ltb 0x1.999999999999ap-3 (loadFactor (current_config st)).

(** The requested ids without a cache entry, as [predict] computes them. *)
Definition dirty (requestedIDs : list Z) (st : State) : list Z :=
  filter (λ x, predictionCache st !! x = None) requestedIDs.

(** The calls recorded between two states, and the queries among them. *)
Definition events_since (st st' : State) : list Event :=
  drop (length (trace st)) (trace st').

Definition fetches_since (st st' : State) : list Event :=
  List.filter is_fetch (events_since st st').

(** [predict] takes its first case, the full retrain: right after reading
    the training state it runs the training query.  (The cold start looks
    for model.pkl first, the third case never runs that query.) *)
Definition retrains (requestedIDs : list Z) (st : State) : Prop :=
  ∃ rest,
    events_since st (predict requestedIDs st).2
    = PathExists modelConfigFilepath :: JsonLoad ::
      Execute SelectFeaturesAndPay :: rest.

(** The cache after [cachePredictions]: one insertion per id that has a
    prediction, in order. *)
Fixpoint fill (cache : gmap Z float) (idList : list Z)
    (predictedPayList : list float) : gmap Z float :=
  match idList, predictedPayList with
  | id :: idList', p :: rest => fill (<[id := p]> cache) idList' rest
  | _, _ => cache
  end.

(** The rows [_train] fits on, and the pipeline it fits. *)
Definition training_frame (st : State) : list (Features * float * float) :=
  preprocess (fetch_features_and_pay st).

Definition fitted_model (st : State) : Model :=
  pipeline_fit (map (λ r, r.1.1) (training_frame st))
               (map snd (training_frame st)).

Definition all_features (st : State) : list Features :=
  map (λ j, (job_type j, hours_worked j)) (jobs st).

(** A call of [predict] runs [_train] (on its first case, or on a cold start
    without model.pkl) and no row survives the filtering. *)
Definition trains_on_nothing (st : State) : Prop :=
  training_frame st = []
  ∧ (shouldRetrain st = true ∨ (model st = None ∧ modelPklFile st = None)).

(** The state [_readModelConfigFilepath] leaves. *)
Definition after_read (st : State) : State :=
  match modelConfigFile st with
  | Some _ => log JsonLoad (log (PathExists modelConfigFilepath) st)
  | None =>
      set_modelConfigFile (Some zeroConfig)
        (log (JsonDump zeroConfig) (log (PathExists modelConfigFilepath) st))
  end.

(** The state [_train] leaves. *)
Definition after_train (st : State) : State :=
  let st1 := log (Execute SelectFeaturesAndPay) st in
  if bool_decide (length (training_frame st) = 0%nat) then st1
  else
    let config := {| dbChangeCounter := 0;
                     lastTrainedRowCount := Z.of_nat (length (training_frame st)) |} in
    set_modelConfigFile (Some config)
      (log (JsonDump config)
         (set_modelPklFile (Some (Pickled (fitted_model st)))
            (log JoblibDump (set_model (Some (fitted_model st)) st1)))).

(** *** Vocabulary of the invariants *)

(** Two states hold the same model, cache, table and files; they may differ
    in the calls recorded so far. *)
Definition same_memory (st st' : State) : Prop :=
  model st = model st'
  ∧ predictionCache st = predictionCache st'
  ∧ jobs st = jobs st'
  ∧ modelConfigFile st = modelConfigFile st'
  ∧ modelPklFile st = modelPklFile st'.

(** The model in memory, if any, is the one model.pkl holds, and model.pkl,
    if there, unpickles. *)
Definition in_sync (st : State) : Prop :=
  (∀ m, model st = Some m → modelPklFile st = Some (Pickled m))
  ∧ modelPklFile st ≠ Some Unreadable.

(** [Pipeline.predict] works row by row: on a batch that is not empty it
    returns [f m x] for each row [x]. *)
Definition predicts_rowwise (f : Model → Features → float) : Prop :=
  ∀ (m : Model) (X : list Features),
    X ≠ [] → pipeline_predict m X = Return (map (f m) X).

(** Every cached value is what the model in memory predicts for a row of
    the table with that id, as the row is now. *)
Definition coherent (f : Model → Features → float) (st : State) : Prop :=
  ∀ id v,
    predictionCache st !! id = Some v →
    ∃ m j, model st = Some m ∧ j ∈ jobs st ∧ job_id j = id
           ∧ v = np_exp (f m (job_type j, hours_worked j)).

(** A new [ML_MODEL] object in a process that starts next to the files and
    the table another run has left. *)
Definition __init__ (st : State) : State :=
  set_model None (set_predictionCache ∅ st).

End ML_MODEL.

(** ** The tabs that use the class

    [DatabaseTab] and [MaintenanceTab] change the table and tell the
    [ML_MODEL] object about it.  Their handlers are modelled on the same
    [State] (the object, its files and the table), without the widgets:
    what the user typed or chose is an argument, a message box is part of
    the outcome.  The handlers' own statements against the table are applied
    to [jobs]; the [trace] stays the record of the calls of the [ML_MODEL]
    object.  The columns [job_date] and [job_name] are not columns of
    [Job], so writing them leaves [jobs] as it is. *)

(** The functions of Python's [str], [float] and [datetime] the handlers
    call: [str.strip], [float(s)] ([None] when it raises [ValueError]) and
    [datetime.strptime(s, "%b %d, %Y").strftime("%Y-%m-%d")] ([None] when
    [strptime] raises [ValueError]). *)
Class PythonText : Type := {
  str_strip : string → string;
  float_of_str : string → option float;
  reformat_date : string → option string
}.

(** [s.replace(c, "")] for a one-character [c]. *)
Fixpoint remove_char (c : Ascii.ascii) (s : string) : string :=
  match s with
  | EmptyString => EmptyString
  | String a s' =>
      if Ascii.eqb a c then remove_char c s' else String a (remove_char c s')
  end.

(** The editable columns of the table widget, [columnHeaderDB] in
    [sqlUpdateActions]. *)
Inductive Column : Type :=
  | job_date_column
  | job_name_column
  | job_type_column
  | hours_worked_column
  | pay_column.

(** The value an accepted edit writes. *)
Inductive NewValue : Type :=
  | NewText (s : string)
  | NewNumber (x : float)
  | NewNull.

(** What the error checks of [sqlUpdateActions] make of the text of a cell:
    a value to write, a refusal with its message (the old cell is restored),
    or the [ValueError] of [strptime], which nothing catches. *)
Inductive Checked : Type :=
  | Accepted (v : NewValue)
  | Refused (msg : string)
  | Uncaught.

(** How a handler ends: it did its work, it showed a message and returned,
    or it ended the process through [error(..., terminate=True)]. *)
Inductive Outcome : Type :=
  | Done
  | Message (msg : string)
  | Terminated.

Section Tabs.
Context `{Libraries} `{PythonText}.

Definition set_jobs (table : list Job) (st : State) : State :=
  {| model := model st; predictionCache := predictionCache st; jobs := table;
     modelConfigFile := modelConfigFile st; modelPklFile := modelPklFile st;
     trace := trace st |}.

(** The error checks of [sqlUpdateActions], on the stripped text. *)
Definition check_edit (col : Column) (newValue : string) : Checked :=
  match col with
  | job_date_column =>
      match reformat_date newValue with
      | Some d => Accepted (NewText d)
      | None => Uncaught
      end
  | job_name_column =>
      if String.eqb newValue "" then Refused "Job name cannot be empty"
      else Accepted (NewText newValue)
  | job_type_column =>
      if String.eqb newValue "" then Refused "Job type cannot be empty"
      else Accepted (NewText newValue)
  | hours_worked_column =>
      if String.eqb newValue "" then Refused "Hours worked cannot be empty"
      else
        match float_of_str (if String.eqb newValue "." then "0" else newValue) with
        | None => Refused "Hours worked must be numeric"
        | Some h =>
            if PrimFloat.ltb h 0 || PrimFloat.ltb 24 h
            then Refused "Hours worked must be between 0.00 to 24.00 hours"
            else Accepted (NewNumber h)
        end
  | pay_column =>
      let newValue :=
        remove_char ","%char
          (remove_char " "%char (remove_char "$"%char newValue)) in
      if String.eqb newValue "" then Accepted NewNull
      else
        match float_of_str (if String.eqb newValue "." then "0" else newValue) with
        | None => Refused "Pay must be numeric"
        | Some p =>
            if PrimFloat.ltb p 0 then Refused "Pay cannot be negative number"
            else Accepted (NewNumber p)
        end
  end.

(** [UPDATE jobs SET col = v WHERE id = id], on the columns of [Job]. *)
Definition update_job (col : Column) (v : NewValue) (j : Job) : Job :=
  match col, v with
  | job_type_column, NewText s =>
      {| job_id := job_id j; job_type := s;
         hours_worked := hours_worked j; pay := pay j |}
  | hours_worked_column, NewNumber h =>
      {| job_id := job_id j; job_type := job_type j;
         hours_worked := h; pay := pay j |}
  | pay_column, NewNumber p =>
      {| job_id := job_id j; job_type := job_type j;
         hours_worked := hours_worked j; pay := Some p |}
  | pay_column, NewNull =>
      {| job_id := job_id j; job_type := job_type j;
         hours_worked := hours_worked j; pay := None |}
  | _, _ => j
  end.

Definition sql_update (col : Column) (v : NewValue) (id : Z)
    (table : list Job) : list Job :=
  map (λ j, if bool_decide (job_id j = id) then update_job col v j else j) table.

(** The column is a feature or the label; the column is a feature. *)
Definition is_feature_or_label (col : Column) : bool :=
  match col with
  | job_type_column | hours_worked_column | pay_column => true
  | _ => false
  end.

Definition is_feature (col : Column) : bool :=
  match col with
  | job_type_column | hours_worked_column => true
  | _ => false
  end.

(** [DatabaseTab.sqlUpdateActions] for the cell in column [col] of the row
    with id [id], holding [text].  Reading the old value ends the process
    when no row has the id ([results[0][0]] fails inside the [try]). *)
Definition sqlUpdateActions (col : Column) (id : Z) (text : string)
    : M Outcome :=
  table ← gets jobs;
  if bool_decide (id ∈ map job_id table) then
    match check_edit col (str_strip text) with
    | Uncaught => raise ValueError
    | Refused msg => mret (Message msg)
    | Accepted newValue =>
        modify (λ st, set_jobs (sql_update col newValue id (jobs st)) st);;
        (if is_feature_or_label col then incrementDbChangeCounter 1
         else mret tt);;
        (if is_feature col then markDirtyIDs [id] else mret tt);;
        mret Done
    end
  else mret Terminated.

(** The loop of [renderTable] over the selected rows, for the column
    "Predicted Pay": [predictedPayList[id]] for each id. *)
Fixpoint predicted_column (predictedPayList : gmap Z float) (ids : list Z)
    : Result (list (Z * float)) :=
  match ids with
  | [] => Return []
  | id :: rest =>
      match predictedPayList !! id with
      | None => Raise (KeyError id)
      | Some predictedPay =>
          match predicted_column predictedPayList rest with
          | Return shown => Return ((id, predictedPay) :: shown)
          | Raise e => Raise e
          end
      end
  end.

(** [DatabaseTab.renderTable], where [ids] are the ids of the rows
    [sqlSelectActions] returned; the result is what the column
    "Predicted Pay" shows, row by row. *)
Definition renderTable (ids : list Z) : M (list (Z * float)) :=
  predictedPayList ← predict ids;
  lift (predicted_column predictedPayList ids).

(** [DatabaseTab.sqlInsertActions]: [submitted] is [None] when the dialog
    was cancelled, and otherwise the row as the database stores it, with
    the id it gives it; [shown] are the ids selected afterwards. *)
Definition sqlInsertActions (submitted : option Job) (shown : list Z)
    : M Outcome :=
  match submitted with
  | None => mret Done
  | Some j =>
      modify (λ st, set_jobs (jobs st ++ [j]) st);;
      incrementDbChangeCounter 1;;
      renderTable shown;;
      mret Done
  end.

(** [DatabaseTab.sqlDeleteActions] for the selected ids; building the
    question reads [selectedJobNames[0]], which fails on an empty
    selection. *)
Definition sqlDeleteActions (selectedIDs : list Z) (confirmed : bool)
    (shown : list Z) : M Outcome :=
  if bool_decide (length selectedIDs = 0%nat) then raise IndexError
  else if confirmed then
    modify (λ st, set_jobs (filter (λ j, job_id j ∉ selectedIDs) (jobs st)) st);;
    markDirtyIDs selectedIDs;;
    incrementDbChangeCounter (Z.of_nat (length selectedIDs));;
    renderTable shown;;
    mret Done
  else mret Done.

(** [MaintenanceTab.handleClearDb]. *)
Definition handleClearDb (confirmed : bool) : M Outcome :=
  table ← gets jobs;
  if bool_decide (length table = 0%nat)
  then mret (Message "Database is already empty!!!")
  else if confirmed then
    modify (set_jobs []);;
    reset;;
    mret Done
  else mret Done.

(** What [handleAppendFromCsv] gets from the file dialog and from pandas:
    no file (the dialog was cancelled), the exception [pd.read_csv] or the
    formatting of the dates raised, with its text, columns that are neither
    expected header, or the rows as the database stores them. *)
Inductive CsvFile : Type :=
  | NoFile
  | ReadError (e : string)
  | WrongHeader
  | CsvRows (rows : list Job).

Definition nl : string := String "010"%char EmptyString.

Definition read_error_message (e : string) : string :=
  String.append "CSV Read Error:" (String.append nl (String.append nl e)).

Definition header_error_message : string :=
  String.append "CSV Read Error:"
    (String.append nl (String.append nl
       (String.append "Headers are expected to be"
          (String.append nl
             (String.append
                "['Date', 'Job Name', 'Job Type', 'Hours Worked', 'Pay']"
                (String.append nl
                   (String.append "or"
                      (String.append nl
                         "['Date', 'Job Name', 'Job Type', 'Hours Worked', 'Pay', 'Expected Pay']")))))))).

(** [MaintenanceTab.handleAppendFromCsv]: a cancelled dialog ends it, a
    file that cannot be read or has other columns ends it with the message
    of [error], and otherwise each row is inserted. *)
Definition handleAppendFromCsv (chosen : CsvFile) : M Outcome :=
  match chosen with
  | NoFile => mret Done
  | ReadError e => mret (Message (read_error_message e))
  | WrongHeader => mret (Message header_error_message)
  | CsvRows rows =>
      modify (λ st, set_jobs (jobs st ++ rows) st);;
      mret Done
  end.

(** [InsertDialog.handleSubmit] on the texts of the three fields it
    reads: [Done] stands for [self.accept()], which closes the dialog; a
    message leaves it open.  The [float] of the hours is not in a [try]. *)
Definition handleSubmit (jobName jobType hoursWorkedInput : string)
    : Result Outcome :=
  if String.eqb jobName "" then Return (Message "Job name cannot be empty")
  else if String.eqb jobType "" then Return (Message "Job type cannot be empty")
  else if String.eqb hoursWorkedInput ""
  then Return (Message "Hours worked cannot be empty")
  else
    match float_of_str (if String.eqb hoursWorkedInput "." then "0"
                        else hoursWorkedInput) with
    | None => Raise ValueError
    | Some h =>
        if PrimFloat.ltb 24 h
        then Return (Message "Hours worked must be between 0.00 to 24.00 hours")
        else Return Done
    end.

(** [InsertDialog.getValuesAsTuple] on the texts of the five fields, the
    date already in the format of the database. *)
Definition getValuesAsTuple (date jobName jobType hoursWorked pay : string)
    : Result (string * string * string * float * option float) :=
  match (if String.eqb hoursWorked "." then Some 0%float
         else float_of_str hoursWorked) with
  | None => Raise ValueError
  | Some hoursWorked =>
      let pay :=
        remove_char ","%char (remove_char " "%char (remove_char "$"%char pay)) in
      let pay := if String.eqb pay "." then "0" else pay in
      if String.eqb pay ""
      then Return (date, jobName, jobType, hoursWorked, None)
      else
        match float_of_str pay with
        | None => Raise ValueError
        | Some pay => Return (date, jobName, jobType, hoursWorked, Some pay)
        end
  end.

(** One action of the user on the running program, or a restart of it. *)
Inductive app_step : State → State → Prop :=
  | step_render ids st :
      app_step st (renderTable ids st).2
  | step_update col id text st :
      app_step st (sqlUpdateActions col id text st).2
  | step_insert submitted shown st :
      app_step st (sqlInsertActions submitted shown st).2
  | step_delete selectedIDs confirmed shown st :
      app_step st (sqlDeleteActions selectedIDs confirmed shown st).2
  | step_clear confirmed st :
      app_step st (handleClearDb confirmed st).2
  | step_append chosen st :
      app_step st (handleAppendFromCsv chosen st).2
  | step_restart st :
      app_step st (__init__ st).

(** The states the program can be in, from a first run over some table. *)
Inductive reachable : State → Prop :=
  | reachable_first_run table : reachable (first_run table)
  | reachable_step st st' : reachable st → app_step st st' → reachable st'.

End Tabs.

(** ** A library instance to run the methods on concrete states *)

Module Sample.

(** [numpy.log] at the pays of the sample tables, rounded to binary64
    (ln 10, ln 10000 = 4 ln 10, ln 3, ln 15 and ln 75); any other number is
    left as it is. *)
Definition log_table (x : float) : float :=
  if PrimFloat.eqb x 10 then 0x1.26bb1bbb55516p+1
  else if PrimFloat.eqb x 10000 then 0x1.26bb1bbb55516p+3
  else if PrimFloat.eqb x 3 then 0x1.193ea7aad030bp+0
  else if PrimFloat.eqb x 15 then 0x1.5aa16394d481fp+1
  else if PrimFloat.eqb x 75 then 0x1.1451b9aa2075cp+2
  else x.

(** A pipeline that remembers the first label it was fitted on and
    predicts it for every row; like scikit-learn it refuses an empty
    batch. *)
#[export] Instance lib : Libraries := {|
  Model := float;
  pipeline_fit := λ _ label, hd 0%float label;
  pipeline_predict := λ m X,
    match X with
    | [] => Raise ValueError
    | _ => Return (map (λ _, m) X)
    end;
  np_log := log_table;
  np_exp := λ x, x
|}.

Definition job (id : Z) (p : option float) : Job :=
  {| job_id := id; job_type := "tutoring"; hours_worked := 2; pay := p |}.

(** A first run over a table with one unpaid job. *)
Definition unpaid : State := first_run [job 1 None].

(** A first run over an empty table. *)
Definition empty_table : State := first_run [].

(** A first run over four jobs paid 10 and one paid 10000. *)
Definition outlier : State :=
  first_run [job 1 (Some 10%float); job 2 (Some 10%float);
             job 3 (Some 10%float); job 4 (Some 10%float);
             job 5 (Some 10000%float)].

(** A first run over jobs paid 75, 3, 15 and 15: the log of 3 is where
    the lower bound is in exact arithmetic. *)
Definition quartiles : State :=
  first_run [job 1 (Some 75%float); job 2 (Some 3%float);
             job 3 (Some 15%float); job 4 (Some 15%float)].

(** A fresh object next to a model.pkl that does not unpickle. *)
Definition broken_pkl : State :=
  {| model := None; predictionCache := ∅; jobs := [job 1 (Some 10%float)];
     modelConfigFile := None; modelPklFile := Some Unreadable; trace := [] |}.

(** A model in memory trained on 10 rows, 3 changes since, and a table
    that now holds one unpaid job. *)
Definition stale : State :=
  {| model := Some 3%float; predictionCache := ∅; jobs := [job 1 None];
     modelConfigFile := Some {| dbChangeCounter := 3; lastTrainedRowCount := 10 |};
     modelPklFile := Some (Pickled 3%float); trace := [] |}.

(** A model in memory trained on 10 rows, 3 changes since, and two paid
    jobs in the table. *)
Definition drifted : State :=
  {| model := Some 3%float; predictionCache := {[ 9 := 3%float ]};
     jobs := [job 1 (Some 10%float); job 2 (Some 10%float)];
     modelConfigFile := Some {| dbChangeCounter := 3; lastTrainedRowCount := 10 |};
     modelPklFile := Some (Pickled 3%float); trace := [] |}.

(** A model in memory trained on 100 rows, 19 changes since. *)
Definition nineteen : State :=
  {| model := Some 3%float; predictionCache := ∅;
     jobs := [job 1 (Some 10%float)];
     modelConfigFile := Some {| dbChangeCounter := 19; lastTrainedRowCount := 100 |};
     modelPklFile := Some (Pickled 3%float); trace := [] |}.

(** A model in memory, nothing changed since training, id 7 cached. *)
Definition warm : State :=
  {| model := Some 3%float; predictionCache := {[ 7 := 3%float ]};
     jobs := [job 7 (Some 10%float); job 8 (Some 10%float)];
     modelConfigFile := Some {| dbChangeCounter := 0; lastTrainedRowCount := 2 |};
     modelPklFile := Some (Pickled 3%float); trace := [] |}.

(** [str.strip] for blanks, [float] on the texts the sample edits use and
    [strptime] on the date of the sample edit. *)
Fixpoint lstrip (s : list Ascii.ascii) : list Ascii.ascii :=
  match s with
  | a :: s' => if Ascii.eqb a " "%char then lstrip s' else s
  | [] => []
  end.

#[export] Instance text : PythonText := {|
  str_strip := λ s,
    String.string_of_list_ascii
      (rev (lstrip (rev (lstrip (String.list_ascii_of_string s)))));
  float_of_str := λ s,
    if String.eqb s "0" then Some 0%float
    else if String.eqb s "8" then Some 8%float
    else if String.eqb s "25" then Some 25%float
    else None;
  reformat_date := λ s,
    if String.eqb s "Jun 01, 2025" then Some "2025-06-01" else None
|}.

(** What the pipeline of the sample predicts for a row. *)
Definition rowwise (m : @Model lib) (x : Features) : float := m.

End Sample.

(** ** Properties *)

Arguments after_read : simpl never.
Arguments after_train : simpl never.

Section Properties.
Context `{Libraries}.

(** *** How the methods run *)

Ltac run :=
  unfold mbind, M_bind, mret, M_ret, emit, modify, gets, lift, raise; simpl.

Lemma read_run st :
  _readModelConfigFilepath st = (Return (current_config st), after_read st).
Proof.
  unfold _readModelConfigFilepath, _writeModelConfigFilepath, path_exists,
    current_config, after_read.
  run. destruct (modelConfigFile st) eqn:E; simpl; rewrite ?E; reflexivity.
Qed.

Lemma load_run st :
  _calculateRetrainLoadFactor st
  = (Return (loadFactor (current_config st)), after_read st).
Proof.
  unfold _calculateRetrainLoadFactor. unfold mbind, M_bind.
  rewrite read_run. reflexivity.
Qed.

Lemma after_read_fields st :
  model (after_read st) = model st
  ∧ predictionCache (after_read st) = predictionCache st
  ∧ jobs (after_read st) = jobs st
  ∧ modelPklFile (after_read st) = modelPklFile st
  ∧ modelConfigFile (after_read st) = Some (current_config st).
Proof.
  unfold after_read, current_config.
  destruct (modelConfigFile st) eqn:E; simpl; rewrite ?E; auto.
Qed.

Lemma after_read_trace st :
  trace (after_read st)
  = trace st ++ [PathExists modelConfigFilepath;
                 if on_disk (modelConfigFile st) then JsonLoad
                 else JsonDump zeroConfig].
Proof.
  unfold after_read.
  destruct (modelConfigFile st); simpl; rewrite <- app_assoc; reflexivity.
Qed.

Lemma train_run st : _train st = (Return tt, after_train st).
Proof.
  unfold _train, _writeModelConfigFilepath, after_train, fitted_model, training_frame.
  run. unfold fetch_features_and_pay. simpl.
  case_bool_decide; [reflexivity|].
  rewrite length_map. reflexivity.
Qed.

Lemma cachePredictions_run idList predictedPayList st :
  cachePredictions idList predictedPayList st
  = (if decide (length idList ≤ length predictedPayList)%nat
     then Return tt else Raise IndexError,
     set_predictionCache (fill (predictionCache st) idList predictedPayList) st).
Proof.
  revert predictedPayList st.
  induction idList as [|id idList IH]; intros ps st; simpl.
  - destruct st; reflexivity.
  - destruct ps as [|p ps]; simpl.
    + unfold raise. destruct st; reflexivity.
    + run. rewrite IH. simpl.
      f_equal. destruct (decide (length idList ≤ length ps)%nat),
        (decide (S (length idList) ≤ S (length ps))%nat); try reflexivity; lia.
Qed.

Lemma model_predict_run featuresList st :
  model_predict featuresList st
  = (match model st with
     | None => Raise AttributeError
     | Some fitted =>
         match pipeline_predict fitted featuresList with
         | Return ys => Return (map np_exp ys)
         | Raise e => Raise e
         end
     end, st).
Proof.
  unfold model_predict. run.
  destruct (model st); [|reflexivity].
  destruct (pipeline_predict _ _); reflexivity.
Qed.

Lemma everything_empty st :
  jobs st = [] →
  _predictAndCacheEverything st = (Return tt, log (Execute SelectAllFeatures) st).
Proof.
  intros E. unfold _predictAndCacheEverything. run. rewrite E. reflexivity.
Qed.

Lemma everything_nonempty st :
  jobs st ≠ [] →
  _predictAndCacheEverything st
  = let st1 := log (Execute SelectAllFeatures) st in
    match model st with
    | None => (Raise AttributeError, st1)
    | Some fitted =>
        match pipeline_predict fitted (all_features st) with
        | Raise e => (Raise e, st1)
        | Return ys =>
            (if decide (length (jobs st) ≤ length ys)%nat
             then Return tt else Raise IndexError,
             set_predictionCache
               (fill ∅ (map job_id (jobs st)) (map np_exp ys)) st1)
        end
    end.
Proof.
  intros E. unfold _predictAndCacheEverything. run.
  case_bool_decide as E'.
  { rewrite length_map in E'. destruct (jobs st); [congruence|discriminate]. }
  unfold mbind, M_bind. rewrite model_predict_run. simpl.
  unfold all_features.
  destruct (model st); [|reflexivity].
  destruct (pipeline_predict _ _) as [ys|e]; [|reflexivity].
  rewrite cachePredictions_run. simpl. rewrite !length_map. reflexivity.
Qed.

Lemma dirty_run dirtyIDs st :
  dirtyIDs ≠ [] →
  _predictAndCacheDirtyIDs dirtyIDs st
  = let st1 := log (Execute (SelectFeaturesIn dirtyIDs)) st in
    let data := filter (λ j, job_id j ∈ dirtyIDs) (jobs st) in
    match model st with
    | None => (Raise AttributeError, st1)
    | Some fitted =>
        match pipeline_predict fitted
                (map (λ j, (job_type j, hours_worked j)) data) with
        | Raise e => (Raise e, st1)
        | Return ys =>
            (if decide (length data ≤ length ys)%nat
             then Return tt else Raise IndexError,
             set_predictionCache
               (fill (predictionCache st) (map job_id data) (map np_exp ys)) st1)
        end
    end.
Proof.
  intros E. unfold _predictAndCacheDirtyIDs. run.
  case_bool_decide as E'.
  { destruct dirtyIDs; [congruence|discriminate]. }
  unfold mbind, M_bind. rewrite model_predict_run. simpl.
  destruct (model st); [|reflexivity].
  destruct (pipeline_predict _ _) as [ys|e]; [|reflexivity].
  rewrite cachePredictions_run. simpl. rewrite !length_map. reflexivity.
Qed.

(** [refresh] on each of its paths. *)
Lemma refresh_retrain ids st :
  shouldRetrain st = true →
  refresh ids st = _predictAndCacheEverything (after_train (after_read st)).
Proof.
  unfold shouldRetrain, refresh. intros E.
  unfold mbind at 1, M_bind at 1. rewrite load_run, E.
  unfold mbind, M_bind. rewrite train_run. reflexivity.
Qed.

Lemma refresh_cold_missing ids st :
  shouldRetrain st = false → model st = None → modelPklFile st = None →
  refresh ids st
  = _predictAndCacheEverything
      (after_train (log (PathExists modelPklFilepath) (after_read st))).
Proof.
  unfold shouldRetrain, refresh. intros E Em Ep.
  destruct (after_read_fields st) as (Hm & _ & _ & Hp & _).
  unfold mbind at 1, M_bind at 1. rewrite load_run, E.
  unfold path_exists. run. rewrite Hm, Em, Hp, Ep.
  unfold mbind, M_bind. rewrite train_run. reflexivity.
Qed.

Lemma refresh_cold_loaded ids st loaded :
  shouldRetrain st = false → model st = None →
  modelPklFile st = Some (Pickled loaded) →
  refresh ids st
  = _predictAndCacheEverything
      (set_model (Some loaded)
         (log JoblibLoad (log (PathExists modelPklFilepath) (after_read st)))).
Proof.
  unfold shouldRetrain, refresh. intros E Em Ep.
  destruct (after_read_fields st) as (Hm & _ & _ & Hp & _).
  unfold mbind at 1, M_bind at 1. rewrite load_run, E.
  unfold path_exists. run. rewrite Hm, Em, Hp, Ep. simpl.
  rewrite Hp, Ep. reflexivity.
Qed.

Lemma refresh_cold_unreadable ids st :
  shouldRetrain st = false → model st = None →
  modelPklFile st = Some Unreadable →
  refresh ids st
  = (Raise UnpicklingError,
     log JoblibLoad (log (PathExists modelPklFilepath) (after_read st))).
Proof.
  unfold shouldRetrain, refresh. intros E Em Ep.
  destruct (after_read_fields st) as (Hm & _ & _ & Hp & _).
  unfold mbind at 1, M_bind at 1. rewrite load_run, E.
  unfold path_exists. run. rewrite Hm, Em, Hp, Ep. simpl.
  rewrite Hp, Ep. reflexivity.
Qed.

Lemma refresh_incremental ids st fitted :
  shouldRetrain st = false → model st = Some fitted →
  refresh ids st
  = match dirty ids st with
    | [] => (Return tt, after_read st)
    | _ => _predictAndCacheDirtyIDs (dirty ids st) (after_read st)
    end.
Proof.
  unfold shouldRetrain, refresh, dirty. intros E Em.
  destruct (after_read_fields st) as (Hm & Hc & _).
  unfold mbind at 1, M_bind at 1. rewrite load_run, E.
  run. rewrite Hm, Em, Hc.
  destruct (filter _ ids) eqn:Ed; simpl; reflexivity.
Qed.

Lemma predict_run ids st :
  ids ≠ [] →
  predict ids st
  = match refresh ids st with
    | (Return _, st') => (collect (predictionCache st') ids ∅, st')
    | (Raise e, st') => (Raise e, st')
    end.
Proof.
  intros E. unfold predict.
  case_bool_decide as E'; [destruct ids; [congruence|discriminate]|].
  unfold mbind, M_bind. destruct (refresh ids st) as [[[]|e] st']; reflexivity.
Qed.

(** *** Traces and the fields a step leaves alone *)

Lemma events_since_app st st' evs :
  trace st' = trace st ++ evs → events_since st st' = evs.
Proof. unfold events_since. intros ->. apply drop_app_length. Qed.

Lemma after_train_trace st :
  trace (after_train st)
  = trace st ++ Execute SelectFeaturesAndPay ::
      (if bool_decide (length (training_frame st) = 0%nat) then []
       else [JoblibDump;
             JsonDump {| dbChangeCounter := 0;
                         lastTrainedRowCount := Z.of_nat (length (training_frame st)) |}]).
Proof.
  unfold after_train. case_bool_decide; simpl; [reflexivity|].
  rewrite <- !app_assoc. reflexivity.
Qed.

Lemma after_train_fields st :
  jobs (after_train st) = jobs st
  ∧ predictionCache (after_train st) = predictionCache st.
Proof. unfold after_train. case_bool_decide; simpl; auto. Qed.

Lemma after_train_noop st :
  training_frame st = [] →
  after_train st = log (Execute SelectFeaturesAndPay) st.
Proof. unfold after_train. intros ->. reflexivity. Qed.

Lemma after_train_fit st :
  training_frame st ≠ [] →
  model (after_train st) = Some (fitted_model st)
  ∧ modelPklFile (after_train st) = Some (Pickled (fitted_model st))
  ∧ modelConfigFile (after_train st)
    = Some {| dbChangeCounter := 0;
              lastTrainedRowCount := Z.of_nat (length (training_frame st)) |}.
Proof.
  unfold after_train. intros E. case_bool_decide as E'; simpl; [|auto].
  destruct (training_frame st); [congruence|discriminate].
Qed.

Lemma everything_fields st :
  let st' := (_predictAndCacheEverything st).2 in
  model st' = model st ∧ jobs st' = jobs st
  ∧ modelConfigFile st' = modelConfigFile st
  ∧ modelPklFile st' = modelPklFile st
  ∧ trace st' = trace st ++ [Execute SelectAllFeatures].
Proof.
  destruct (decide (jobs st = [])) as [E|E].
  - rewrite everything_empty by done. simpl. auto.
  - rewrite everything_nonempty by done. simpl.
    destruct (model st) eqn:Em; [|simpl; auto].
    destruct (pipeline_predict _ _); simpl; auto.
Qed.

Lemma dirty_fields dirtyIDs st :
  dirtyIDs ≠ [] →
  let st' := (_predictAndCacheDirtyIDs dirtyIDs st).2 in
  model st' = model st ∧ jobs st' = jobs st
  ∧ modelConfigFile st' = modelConfigFile st
  ∧ modelPklFile st' = modelPklFile st
  ∧ trace st' = trace st ++ [Execute (SelectFeaturesIn dirtyIDs)].
Proof.
  intros E. rewrite dirty_run by done. simpl.
  destruct (model st) eqn:Em; [|simpl; auto].
  destruct (pipeline_predict _ _); simpl; auto.
Qed.

Lemma predict_state ids st :
  ids ≠ [] → (predict ids st).2 = (refresh ids st).2.
Proof.
  intros E. rewrite predict_run by done.
  destruct (refresh ids st) as [[[]|e] st']; reflexivity.
Qed.

(** *** Floats *)

(** No counter at all, or a counter of zero, is never above the threshold. *)
Lemma loadFactor_zero_rows c :
  PrimFloat.ltb 0x1.999999999999ap-3
    (loadFactor {| dbChangeCounter := c; lastTrainedRowCount := 0 |}) = false.
Proof. reflexivity. Qed.

Lemma loadFactor_zero_changes n :
  PrimFloat.ltb 0x1.999999999999ap-3
    (loadFactor {| dbChangeCounter := 0; lastTrainedRowCount := n |}) = false.
Proof.
  unfold loadFactor. simpl. destruct (0 <? n); [|reflexivity].
  rewrite FloatAxioms.ltb_spec, FloatAxioms.div_spec.
  change (FloatOps.Prim2SF (Num.float_of_int 0)) with (SpecFloat.S754_zero false).
  destruct (FloatOps.Prim2SF (Num.float_of_int n)); reflexivity.
Qed.

Lemma shouldRetrain_on_disk st :
  shouldRetrain st = true → ∃ config, modelConfigFile st = Some config.
Proof.
  unfold shouldRetrain, current_config.
  destruct (modelConfigFile st) as [c|]; [eauto|]. simpl. discriminate.
Qed.

(** *** The two notifications and [reset] *)

Lemma incrementDbChangeCounter_run x st :
  (incrementDbChangeCounter x st).1 = Return tt
  ∧ modelConfigFile (incrementDbChangeCounter x st).2
    = Some {| dbChangeCounter := dbChangeCounter (current_config st) + x;
              lastTrainedRowCount := lastTrainedRowCount (current_config st) |}
  ∧ predictionCache (incrementDbChangeCounter x st).2 = predictionCache st.
Proof.
  unfold incrementDbChangeCounter, _writeModelConfigFilepath.
  unfold mbind, M_bind. rewrite read_run. run.
  destruct (after_read_fields st) as (_ & Hc & _). auto.
Qed.

Lemma markDirtyIDs_run IDs st id :
  predictionCache (markDirtyIDs IDs st).2 !! id
  = if decide (id ∈ IDs) then None else predictionCache st !! id.
Proof.
  unfold markDirtyIDs, modify. simpl. generalize (predictionCache st).
  induction IDs as [|i IDs IH]; intros cache.
  - destruct (decide (id ∈ [])) as [Hin|]; [|done].
    by apply elem_of_nil in Hin.
  - change (foldl (λ c id0, delete id0 c) cache (i :: IDs))
      with (foldl (λ c id0, delete id0 c) (delete i cache) IDs).
    rewrite IH.
    destruct (decide (id ∈ IDs)) as [Hin|Hnin],
      (decide (id ∈ i :: IDs)) as [Hin'|Hnin']; try done.
    + destruct Hnin'. by right.
    + apply elem_of_cons in Hin' as [->|]; [|done]. apply lookup_delete_eq.
    + apply not_elem_of_cons in Hnin' as [Hne _]. by apply lookup_delete_ne.
Qed.

Lemma reset_run st :
  (reset st).1 = Return tt
  ∧ model (reset st).2 = None
  ∧ predictionCache (reset st).2 = ∅
  ∧ modelConfigFile (reset st).2 = None
  ∧ modelPklFile (reset st).2 = None
  ∧ jobs (reset st).2 = jobs st.
Proof.
  unfold reset, path_exists. run.
  destruct (modelConfigFile st) eqn:Ec, (modelPklFile st) eqn:Ep; simpl;
    rewrite ?Ec, ?Ep; simpl; rewrite ?Ec, ?Ep; simpl; auto 10.
Qed.

(** *** The empty request *)

(** C9: [predict([])] returns the empty mapping and leaves the whole state
    as it was: no query, no file access, the cache and the model
    untouched. *)
Theorem predict_empty_request st : predict [] st = (Return ∅, st).
Proof. reflexivity. Qed.

(** *** Training on nothing *)

(** C4: when no row survives the filtering, [_train] returns after its query
    and changes nothing: the model in memory, model.pkl and
    modelConfig.json (so both counters) are what they were, and nothing is
    written. *)
Theorem train_without_rows_changes_nothing st :
  training_frame st = [] →
  ∃ st',
    _train st = (Return tt, st')
    ∧ model st' = model st
    ∧ modelPklFile st' = modelPklFile st
    ∧ modelConfigFile st' = modelConfigFile st
    ∧ predictionCache st' = predictionCache st
    ∧ events_since st st' = [Execute SelectFeaturesAndPay].
Proof.
  intros E. exists (after_train st). rewrite train_run.
  rewrite after_train_noop by done. simpl.
  repeat split. apply events_since_app. reflexivity.
Qed.

(** *** The retrain decision *)

Lemma retrains_of_shouldRetrain ids st :
  ids ≠ [] → shouldRetrain st = true → retrains ids st.
Proof.
  intros Hids E. unfold retrains.
  destruct (shouldRetrain_on_disk st E) as [c Ec].
  rewrite predict_state, refresh_retrain by done.
  destruct (everything_fields (after_train (after_read st)))
    as (_ & _ & _ & _ & Ht).
  eexists. apply events_since_app. rewrite Ht.
  rewrite after_train_trace, after_read_trace, Ec. simpl.
  rewrite <- !app_assoc. simpl. reflexivity.
Qed.

Lemma not_retrains ids st :
  ids ≠ [] → shouldRetrain st = false → ¬ retrains ids st.
Proof.
  intros Hids E [rest Hr]. rewrite predict_state in Hr by done.
  assert (Hev : ∀ st' evs,
    trace st' = trace (after_read st) ++ evs →
    events_since st st'
    = PathExists modelConfigFilepath ::
        (if on_disk (modelConfigFile st) then JsonLoad else JsonDump zeroConfig)
        :: evs).
  { intros st' evs Ht. apply events_since_app. rewrite Ht, after_read_trace.
    rewrite <- app_assoc. reflexivity. }
  destruct (model st) as [fitted|] eqn:Em.
  - rewrite (refresh_incremental _ _ fitted) in Hr by done.
    destruct (dirty ids st) as [|d ds] eqn:Ed.
    + simpl in Hr. rewrite (Hev _ []) in Hr by (by rewrite app_nil_r).
      discriminate.
    + destruct (dirty_fields (d :: ds) (after_read st)) as (_ & _ & _ & _ & Ht);
        [done|].
      rewrite (Hev _ _ Ht) in Hr. discriminate.
  - destruct (modelPklFile st) as [[loaded|]|] eqn:Ep.
    + rewrite (refresh_cold_loaded _ _ loaded) in Hr by done.
      destruct (everything_fields (set_model (Some loaded)
        (log JoblibLoad (log (PathExists modelPklFilepath) (after_read st)))))
        as (_ & _ & _ & _ & Ht).
      simpl in Ht. rewrite <- !app_assoc in Ht.
      rewrite (Hev _ _ Ht) in Hr. discriminate.
    + rewrite refresh_cold_unreadable in Hr by done. simpl in Hr.
      rewrite (Hev _ [PathExists modelPklFilepath; JoblibLoad]) in Hr.
      * discriminate.
      * simpl. rewrite <- !app_assoc. reflexivity.
    + rewrite refresh_cold_missing in Hr by done.
      destruct (everything_fields
        (after_train (log (PathExists modelPklFilepath) (after_read st))))
        as (_ & _ & _ & _ & Ht).
      rewrite after_train_trace in Ht. simpl in Ht.
      rewrite <- !app_assoc in Ht.
      rewrite (Hev _ _ Ht) in Hr. discriminate.
Qed.

Lemma no_training_below_threshold ids st :
  shouldRetrain st = false →
  (model st ≠ None ∨ ∃ loaded, modelPklFile st = Some (Pickled loaded)) →
  Execute SelectFeaturesAndPay ∉ events_since st (predict ids st).2.
Proof.
  intros E Hmodel. destruct ids as [|i ids].
  { simpl. unfold events_since. rewrite drop_all. apply not_elem_of_nil. }
  rewrite predict_state by done.
  assert (Hev : ∀ st' evs,
    trace st' = trace (after_read st) ++ evs →
    Execute SelectFeaturesAndPay ∉ evs →
    Execute SelectFeaturesAndPay ∉ events_since st st').
  { intros st' evs Ht Hevs.
    rewrite (events_since_app st st'
      (PathExists modelConfigFilepath ::
       (if on_disk (modelConfigFile st) then JsonLoad else JsonDump zeroConfig)
       :: evs)).
    - rewrite !not_elem_of_cons. split; [done|]. split; [|done].
      by destruct (on_disk _).
    - rewrite Ht, after_read_trace, <- app_assoc. reflexivity. }
  destruct (model st) as [fitted|] eqn:Em.
  - rewrite (refresh_incremental _ _ fitted) by done.
    destruct (dirty (i :: ids) st) as [|d ds] eqn:Ed.
    + apply (Hev _ []); [by rewrite app_nil_r|apply not_elem_of_nil].
    + destruct (dirty_fields (d :: ds) (after_read st)) as (_ & _ & _ & _ & Ht);
        [done|].
      apply (Hev _ _ Ht). rewrite not_elem_of_cons.
      split; [done|apply not_elem_of_nil].
  - destruct Hmodel as [|[loaded Ep]]; [done|].
    rewrite (refresh_cold_loaded _ _ loaded) by done.
    destruct (everything_fields (set_model (Some loaded)
      (log JoblibLoad (log (PathExists modelPklFilepath) (after_read st)))))
      as (_ & _ & _ & _ & Ht).
    simpl in Ht. rewrite <- !app_assoc in Ht.
    apply (Hev _ _ Ht). simpl. rewrite !not_elem_of_cons.
    repeat split; try done. apply not_elem_of_nil.
Qed.

(** C2: the load factor is the quotient of the two persisted counters when
    rows were trained on and 0.0 otherwise; [predict] takes the full
    retrain exactly when it is above 0.2, which depends on the persisted
    training state only, and at or below 0.2 it runs no training query at
    all as long as it has a model (in memory, or in a model.pkl that
    unpickles); 19 changes on 100 rows do not retrain, and no number of
    changes on 0 rows does. *)
Theorem retrain_decision :
  (∀ config,
     loadFactor config
     = if 0 <? lastTrainedRowCount config
       then PrimFloat.div (Num.float_of_int (dbChangeCounter config))
                          (Num.float_of_int (lastTrainedRowCount config))
       else 0%float)
  ∧ (∀ st, (_calculateRetrainLoadFactor st).1
           = Return (loadFactor (current_config st)))
  ∧ (∀ ids st, ids ≠ [] →
       (retrains ids st
        ↔ PrimFloat.ltb 0x1.999999999999ap-3
            (loadFactor (current_config st)) = true))
  ∧ (∀ ids st,
       PrimFloat.ltb 0x1.999999999999ap-3 (loadFactor (current_config st))
       = false →
       (model st ≠ None ∨ ∃ loaded, modelPklFile st = Some (Pickled loaded)) →
       Execute SelectFeaturesAndPay ∉ events_since st (predict ids st).2)
  ∧ (∀ ids st,
       modelConfigFile st
       = Some {| dbChangeCounter := 19; lastTrainedRowCount := 100 |} →
       ¬ retrains ids st)
  ∧ (∀ ids st c,
       modelConfigFile st
       = Some {| dbChangeCounter := c; lastTrainedRowCount := 0 |} →
       ¬ retrains ids st).
Proof.
  assert (Hempty : ∀ st, ¬ retrains [] st).
  { intros st [rest Hr]. simpl in Hr. unfold events_since in Hr.
    rewrite drop_all in Hr. discriminate. }
  split; [reflexivity|].
  split; [intros st; rewrite load_run; reflexivity|].
  split; [|split; [apply no_training_below_threshold|split]].
  - intros ids st Hids. fold (shouldRetrain st). split.
    + intros Hr. destruct (shouldRetrain st) eqn:E; [reflexivity|].
      destruct (not_retrains ids st Hids E Hr).
    + apply retrains_of_shouldRetrain, Hids.
  - intros ids st Ec. destruct ids as [|i ids]; [apply Hempty|].
    apply not_retrains; [done|].
    unfold shouldRetrain, current_config. rewrite Ec. reflexivity.
  - intros ids st c Ec. destruct ids as [|i ids]; [apply Hempty|].
    apply not_retrains; [done|].
    unfold shouldRetrain, current_config. rewrite Ec.
    apply loadFactor_zero_rows.
Qed.

(** *** The rows a fit uses *)

Lemma elem_of_nonzero_dropna fetched x p :
  (x, p) ∈ nonzero_pay (dropna_pay fetched)
  ↔ (x, Some p) ∈ fetched ∧ Num.is_nan p = false ∧ PrimFloat.eqb p 0 = false.
Proof.
  unfold nonzero_pay, dropna_pay.
  rewrite list_elem_of_filter, list_elem_of_omap. simpl. split.
  - intros (Hz & [[x' [p'|]] [Hin Hsome]]); simpl in Hsome; [|discriminate].
    destruct (Num.is_nan p') eqn:En; [discriminate|].
    injection Hsome as -> ->. auto.
  - intros (Hin & Hn & Hz). split; [exact Hz|].
    exists (x, Some p). simpl. rewrite Hn. auto.
Qed.

Lemma elem_of_with_log_pay df r :
  r ∈ with_log_pay df ↔ ∃ x p, r = (x, p, np_log p) ∧ (x, p) ∈ df.
Proof.
  unfold with_log_pay. rewrite list_elem_of_In, in_map_iff. split.
  - intros [[x p] [<- Hin]]. exists x, p. by rewrite list_elem_of_In.
  - intros (x & p & -> & Hin). exists (x, p). by rewrite <- list_elem_of_In.
Qed.

Lemma train_persists_row_count st :
  training_frame st ≠ [] →
  modelConfigFile (_train st).2
  = Some {| dbChangeCounter := 0;
            lastTrainedRowCount := Z.of_nat (length (training_frame st)) |}.
Proof. intros E. rewrite train_run. simpl. by apply after_train_fit. Qed.

(** The order of the floats that are not NaN is total. *)
Lemma SFcompare_antisym x y c :
  SpecFloat.SFcompare x y = Some c →
  SpecFloat.SFcompare y x = Some (CompOpp c).
Proof.
  destruct x as [sx|sx| |sx mx ex], y as [sy|sy| |sy my ey]; simpl;
    try discriminate; intros [= <-];
    try (by destruct sx); try (by destruct sy); try (by destruct sx, sy).
  destruct sx, sy; try reflexivity.
  - rewrite (Z.compare_antisym ex ey).
    destruct (ex ?= ey) eqn:E; simpl; try reflexivity.
    f_equal. change (Pos.compare_cont Eq my mx) with (Pos.compare my mx).
    change (Pos.compare_cont Eq mx my) with (Pos.compare mx my).
    by rewrite (Pos.compare_antisym mx my).
  - rewrite (Z.compare_antisym ex ey).
    destruct (ex ?= ey) eqn:E; simpl; try reflexivity.
    f_equal. change (Pos.compare_cont Eq my mx) with (Pos.compare my mx).
    change (Pos.compare_cont Eq mx my) with (Pos.compare mx my).
    by rewrite (Pos.compare_antisym mx my).
Qed.

Lemma SFcompare_not_nan x :
  Num.is_nan x = false →
  ∀ y, Num.is_nan y = false →
       ∃ c, SpecFloat.SFcompare (FloatOps.Prim2SF x) (FloatOps.Prim2SF y)
            = Some c.
Proof.
  intros Hx y Hy. unfold Num.is_nan in Hx, Hy.
  rewrite FloatAxioms.eqb_spec in Hx, Hy. unfold SpecFloat.SFeqb in Hx, Hy.
  destruct (FloatOps.Prim2SF x) as [sx|sx| |sx mx ex],
           (FloatOps.Prim2SF y) as [sy|sy| |sy my ey];
    simpl in *; try discriminate; eauto.
Qed.

Lemma le_total x y :
  Num.is_nan x = false → Num.is_nan y = false →
  Num.le x y = false → Num.le y x = true.
Proof.
  intros Hx Hy. destruct (SFcompare_not_nan x Hx y Hy) as [c Hc].
  unfold Num.le. rewrite !FloatAxioms.leb_spec. unfold SpecFloat.SFleb.
  rewrite (SFcompare_antisym _ _ _ Hc), Hc. by destruct c.
Qed.

(** [Num.sort] sorts. *)
Lemma insert_sorted_perm x l : Num.insert_sorted x l ≡ₚ x :: l.
Proof.
  induction l as [|y l IH]; simpl; [done|].
  destruct (Num.le x y); [done|]. rewrite IH. apply Permutation_swap.
Qed.

Lemma sort_perm l : Num.sort l ≡ₚ l.
Proof.
  induction l as [|x l IH]; simpl; [done|].
  unfold Num.sort in *. simpl. rewrite insert_sorted_perm. by f_equiv.
Qed.

Lemma insert_sorted_Sorted x l :
  Num.is_nan x = false → Forall (λ y, Num.is_nan y = false) l →
  Sorted (λ a b, Num.le a b = true) l →
  Sorted (λ a b, Num.le a b = true) (Num.insert_sorted x l).
Proof.
  intros Hx Hl Hs. induction l as [|y l IH]; simpl.
  - repeat constructor.
  - apply Forall_cons in Hl as [Hy Hl].
    destruct (Num.le x y) eqn:E.
    + constructor; [exact Hs|]. by constructor.
    + apply Sorted_inv in Hs as [Hs Hhd].
      constructor; [by apply IH|].
      destruct l as [|z l]; simpl.
      * constructor. by apply le_total.
      * destruct (Num.le x z).
        -- constructor. by apply le_total.
        -- constructor. by apply HdRel_inv in Hhd.
Qed.

Lemma sort_Sorted l :
  Forall (λ y, Num.is_nan y = false) l →
  Sorted (λ a b, Num.le a b = true) (Num.sort l).
Proof.
  induction l as [|x l IH]; intros Hl; [constructor|].
  apply Forall_cons in Hl as [Hx Hl]. unfold Num.sort in *. simpl.
  apply insert_sorted_Sorted; [done| |by apply IH].
  change (foldr Num.insert_sorted [] l) with (Num.sort l).
  by rewrite sort_perm.
Qed.

(** [Series.quantile] on its sorted values. *)
Lemma quantile_run q xs :
  let v := Num.sort (filter (λ x, Num.is_nan x = false) xs) in
  let n := Z.of_nat (length v) in
  let virtual_index := PrimFloat.mul (Num.float_of_int (n - 1)) q in
  (v = [] → Num.quantile q xs = PrimFloat.nan)
  ∧ (∀ x, PrimFloat.leb (Num.float_of_int (n - 1)) virtual_index = true →
          last v = Some x →
          Num.quantile q xs
          = Num.lerp x x (PrimFloat.sub virtual_index (Num.float_of_int (-1))))
  ∧ (∀ a b, PrimFloat.leb (Num.float_of_int (n - 1)) virtual_index = false →
            v !! Z.to_nat (Num.floor virtual_index) = Some a →
            v !! Z.to_nat (Num.floor virtual_index + 1) = Some b →
            Num.quantile q xs
            = Num.lerp a b
                (PrimFloat.sub virtual_index
                   (Num.float_of_int (Num.floor virtual_index)))).
Proof.
  cbv zeta. unfold Num.quantile.
  destruct (Num.sort (filter (λ x, Num.is_nan x = false) xs)) as [|x0 v] eqn:E.
  - split; [done|]. split; [discriminate|]. intros a b _ Ha. discriminate Ha.
  - split; [discriminate|]. cbv zeta. split.
    + intros x Hle Hlast. rewrite Hle. rewrite nth_lookup.
      rewrite last_lookup in Hlast.
      replace (Z.to_nat (Z.of_nat (length (x0 :: v)) - 1))
        with (pred (length (x0 :: v))) by (simpl; lia).
      by rewrite Hlast.
    + intros a b Hle Ha Hb. rewrite Hle, !nth_lookup, Ha, Hb. reflexivity.
Qed.

Lemma outlier_frame_length (x1 x2 x3 x4 x5 : Features) :
  np_log 10 = 0x1.26bb1bbb55516p+1%float →
  np_log 10000 = 0x1.26bb1bbb55516p+3%float →
  length (preprocess [(x1, Some 10%float); (x2, Some 10%float);
                      (x3, Some 10%float); (x4, Some 10%float);
                      (x5, Some 10000%float)]) = 4%nat.
Proof.
  intros E10 E10000. unfold preprocess.
  change (with_log_pay (nonzero_pay (dropna_pay _)))
    with [(x1, 10%float, np_log 10); (x2, 10%float, np_log 10);
          (x3, 10%float, np_log 10); (x4, 10%float, np_log 10);
          (x5, 10000%float, np_log 10000)].
  rewrite E10, E10000. reflexivity.
Qed.

Lemma quartiles_frame (x1 x2 x3 x4 : Features) :
  np_log 3 = 0x1.193ea7aad030bp+0%float →
  np_log 15 = 0x1.5aa16394d481fp+1%float →
  np_log 75 = 0x1.1451b9aa2075cp+2%float →
  map (λ r, r.1.2) (preprocess [(x1, Some 75%float); (x2, Some 3%float);
                                (x3, Some 15%float); (x4, Some 15%float)])
  = [75; 15; 15]%float.
Proof.
  intros E3 E15 E75. unfold preprocess.
  change (with_log_pay (nonzero_pay (dropna_pay _)))
    with [(x1, 75%float, np_log 75); (x2, 3%float, np_log 3);
          (x3, 15%float, np_log 15); (x4, 15%float, np_log 15)].
  rewrite E3, E15, E75. reflexivity.
Qed.

(** C5: training keeps a fetched row exactly when its pay is present (not
    NULL, not NaN) and not zero, and, among those, when its log pay lies in
    [Q1 − 1.5·IQR, Q3 + 1.5·IQR] (both ends included) for the quartiles of
    the log pays of those rows.  The quartiles are those of pandas: the
    log pays that are not NaN are put in ascending order, and the quantile
    [q] is read at the index [(n − 1)·q] of that order, interpolated between
    the two neighbours [a] and [b] at the fractional part [t] as
    [a + (b − a)·t], or as [b − (b − a)·(1 − t)] from [t = 0.5] on.  A fit
    persists the number of kept rows as lastTrainedRowCount; with pays 10,
    10, 10, 10, 10000 that number is 4; and with pays 75, 3, 15, 15, where
    the log of 3 is the lower bound in exact arithmetic, the row paid 3 is
    dropped and the number is 3. *)
Theorem training_rows_tukey :
  (∀ fetched x p,
     (x, p) ∈ nonzero_pay (dropna_pay fetched)
     ↔ (x, Some p) ∈ fetched ∧ Num.is_nan p = false ∧ PrimFloat.eqb p 0 = false)
  ∧ (∀ fetched r,
       let labelled := nonzero_pay (dropna_pay fetched) in
       let logPay := map (λ r, np_log r.2) labelled in
       let Q1 := Num.quantile 0.25 logPay in
       let Q3 := Num.quantile 0.75 logPay in
       let IQR := PrimFloat.sub Q3 Q1 in
       r ∈ preprocess fetched
       ↔ (∃ x p, r = (x, p, np_log p) ∧ (x, p) ∈ labelled)
         ∧ PrimFloat.leb (PrimFloat.sub Q1 (PrimFloat.mul 1.5 IQR)) r.2 = true
         ∧ PrimFloat.leb r.2 (PrimFloat.add Q3 (PrimFloat.mul 1.5 IQR)) = true)
  ∧ (∀ q logPay,
       let present := filter (λ x, Num.is_nan x = false) logPay in
       let v := Num.sort present in
       let n := Z.of_nat (length v) in
       let virtual_index := PrimFloat.mul (Num.float_of_int (n - 1)) q in
       let i := Num.floor virtual_index in
       let t := PrimFloat.sub virtual_index (Num.float_of_int i) in
       v ≡ₚ present
       ∧ Sorted (λ a b, PrimFloat.leb a b = true) v
       ∧ (present = [] → Num.quantile q logPay = PrimFloat.nan)
       ∧ (∀ a b,
            PrimFloat.leb (Num.float_of_int (n - 1)) virtual_index = false →
            v !! Z.to_nat i = Some a → v !! Z.to_nat (i + 1) = Some b →
            Num.quantile q logPay
            = if PrimFloat.leb 0.5 t
              then PrimFloat.sub b
                     (PrimFloat.mul (PrimFloat.sub b a) (PrimFloat.sub 1 t))
              else PrimFloat.add a (PrimFloat.mul (PrimFloat.sub b a) t))
       ∧ (∀ x,
            PrimFloat.leb (Num.float_of_int (n - 1)) virtual_index = true →
            last v = Some x →
            let t := PrimFloat.sub virtual_index (-1) in
            Num.quantile q logPay
            = if PrimFloat.leb 0.5 t
              then PrimFloat.sub x
                     (PrimFloat.mul (PrimFloat.sub x x) (PrimFloat.sub 1 t))
              else PrimFloat.add x (PrimFloat.mul (PrimFloat.sub x x) t)))
  ∧ (∀ st,
       training_frame st ≠ [] →
       modelConfigFile (_train st).2
       = Some {| dbChangeCounter := 0;
                 lastTrainedRowCount := Z.of_nat (length (training_frame st)) |})
  ∧ (np_log 10 = 0x1.26bb1bbb55516p+1%float →
     np_log 10000 = 0x1.26bb1bbb55516p+3%float →
     ∀ st,
       map pay (jobs st)
       = [Some 10; Some 10; Some 10; Some 10; Some 10000]%float →
       length (training_frame st) = 4%nat
       ∧ modelConfigFile (_train st).2
         = Some {| dbChangeCounter := 0; lastTrainedRowCount := 4 |})
  ∧ (np_log 3 = 0x1.193ea7aad030bp+0%float →
     np_log 15 = 0x1.5aa16394d481fp+1%float →
     np_log 75 = 0x1.1451b9aa2075cp+2%float →
     ∀ st,
       map pay (jobs st) = [Some 75; Some 3; Some 15; Some 15]%float →
       map (λ r, r.1.2) (training_frame st) = [75; 15; 15]%float
       ∧ modelConfigFile (_train st).2
         = Some {| dbChangeCounter := 0; lastTrainedRowCount := 3 |}).
Proof.
  split; [apply elem_of_nonzero_dropna|].
  split; [|split; [|split; [apply train_persists_row_count|split]]].
  - intros fetched r. cbv zeta. unfold preprocess, exclude_outliers.
    rewrite list_elem_of_filter, elem_of_with_log_pay.
    unfold lowerBound, upperBound, Num.ge, Num.le.
    replace (map snd (with_log_pay (nonzero_pay (dropna_pay fetched))))
      with (map (λ r : Features * float, np_log r.2)
              (nonzero_pay (dropna_pay fetched)))
      by (unfold with_log_pay; rewrite map_map; reflexivity).
    rewrite andb_true_iff. tauto.
  - intros q logPay. cbv zeta.
    destruct (quantile_run q logPay) as (Hnan & Hlast & Hmid).
    split; [apply sort_perm|]. split.
    { apply sort_Sorted, Forall_forall. intros x Hx.
      by apply list_elem_of_filter in Hx as [Hx _]. }
    split.
    { intros E. apply Hnan. by rewrite E. }
    split.
    + intros a b Hle Ha Hb. rewrite (Hmid a b Hle Ha Hb). reflexivity.
    + intros x Hle Hx. rewrite (Hlast x Hle Hx). reflexivity.
  - intros E10 E10000 st Epay.
    assert (El : length (training_frame st) = 4%nat).
    { unfold training_frame, fetch_features_and_pay.
      destruct (jobs st) as [|j1 [|j2 [|j3 [|j4 [|j5 [|j6 js]]]]]];
        try discriminate Epay.
      simpl in Epay. injection Epay as E1 E2 E3 E4 E5.
      simpl. rewrite E1, E2, E3, E4, E5.
      apply outlier_frame_length; assumption. }
    split; [exact El|].
    rewrite train_persists_row_count, El; [reflexivity|].
    intros E. rewrite E in El. discriminate.
  - intros E3 E15 E75 st Epay.
    assert (Epays : map (λ r, r.1.2) (training_frame st) = [75; 15; 15]%float).
    { unfold training_frame, fetch_features_and_pay.
      destruct (jobs st) as [|j1 [|j2 [|j3 [|j4 [|j5 js]]]]];
        try discriminate Epay.
      simpl in Epay. injection Epay as E1 E2 E3' E4.
      simpl. rewrite E1, E2, E3', E4.
      apply quartiles_frame; assumption. }
    split; [exact Epays|].
    assert (El : length (training_frame st) = 3%nat)
      by (rewrite <- (length_map (λ r, r.1.2)), Epays; reflexivity).
    rewrite train_persists_row_count, El; [reflexivity|].
    intros E. rewrite E in El. discriminate.
Qed.

(** *** The cache loops *)

Lemma fill_lookup_notin cache idList predictedPayList k :
  k ∉ idList → fill cache idList predictedPayList !! k = cache !! k.
Proof.
  revert cache predictedPayList.
  induction idList as [|id idList IH]; intros cache ps Hk; [reflexivity|].
  destruct ps as [|p ps]; [reflexivity|]. simpl.
  apply not_elem_of_cons in Hk as [Hne Hk].
  rewrite IH by done. by rewrite lookup_insert_ne.
Qed.

Lemma fill_lookup_last cache idList predictedPayList i id p :
  idList !! i = Some id → predictedPayList !! i = Some p →
  id ∉ drop (S i) idList →
  fill cache idList predictedPayList !! id = Some p.
Proof.
  revert cache predictedPayList i.
  induction idList as [|id' idList IH]; intros cache ps i Hid Hp Hlast;
    [discriminate|].
  destruct ps as [|p' ps]; [destruct i; discriminate|].
  destruct i as [|i]; simpl in *.
  - injection Hid as ->. injection Hp as ->.
    rewrite drop_0 in Hlast.
    rewrite fill_lookup_notin by done. apply lookup_insert_eq.
  - eapply IH; eauto.
Qed.

Lemma fill_dom cache idList predictedPayList :
  (length idList ≤ length predictedPayList)%nat →
  dom (fill cache idList predictedPayList) = dom cache ∪ list_to_set idList.
Proof.
  revert cache predictedPayList.
  induction idList as [|id idList IH]; intros cache ps Hlen; simpl.
  - set_solver.
  - destruct ps as [|p ps]; simpl in Hlen; [lia|].
    rewrite IH by lia. rewrite dom_insert_L. set_solver.
Qed.

Lemma collect_Return cache ids acc :
  (∀ id, id ∈ ids → is_Some (cache !! id)) →
  ∃ r, collect cache ids acc = Return r
       ∧ dom r = dom acc ∪ list_to_set ids
       ∧ (∀ id, id ∈ ids → r !! id = cache !! id).
Proof.
  revert acc. induction ids as [|id ids IH]; intros acc Hall; simpl.
  - exists acc. split; [done|]. split; [set_solver|].
    intros id Hin. by apply elem_of_nil in Hin.
  - destruct (Hall id) as [p Hp]; [left|]. rewrite Hp.
    destruct (IH (<[id:=p]> acc)) as (r & Hr & Hdom & Hval).
    { intros id' Hin. apply Hall. by right. }
    exists r. split; [done|]. split.
    + rewrite Hdom, dom_insert_L. set_solver.
    + intros id' Hin. destruct (decide (id' ∈ ids)) as [Hin'|Hnin];
        [by apply Hval|].
      apply elem_of_cons in Hin as [->|]; [|done].
      rewrite Hp. clear -Hr Hnin.
      assert (Hgen : ∀ ids acc r p, collect cache ids acc = Return r →
                id ∉ ids → acc !! id = Some p → r !! id = Some p).
      { clear. induction ids as [|i ids IH]; intros acc r p Hr Hnin Hacc;
          simpl in Hr.
        - by injection Hr as <-.
        - apply not_elem_of_cons in Hnin as [Hne Hnin].
          destruct (cache !! i) as [q|]; [|discriminate].
          eapply IH; eauto. by rewrite lookup_insert_ne. }
      eapply Hgen; eauto. apply lookup_insert_eq.
Qed.

Lemma collect_Raise cache ids acc e :
  collect cache ids acc = Raise e →
  ∃ k, e = KeyError k ∧ k ∈ ids ∧ cache !! k = None.
Proof.
  revert acc. induction ids as [|id ids IH]; intros acc Hc; simpl in Hc;
    [discriminate|].
  destruct (cache !! id) as [p|] eqn:Hp.
  - destruct (IH _ Hc) as (k & -> & Hin & Hk). exists k.
    split; [done|]. split; [by right|done].
  - injection Hc as <-. exists id. split; [done|]. split; [by left|done].
Qed.

Lemma collect_absent cache ids acc x :
  x ∈ ids → cache !! x = None → ∃ k, collect cache ids acc = Raise (KeyError k).
Proof.
  intros Hin Hx. destruct (collect cache ids acc) as [r|e] eqn:Hc.
  - exfalso. revert acc r Hc.
    induction ids as [|id ids IH]; intros acc r Hc; simpl in Hc.
    + by apply elem_of_nil in Hin.
    + destruct (cache !! id) as [p|] eqn:Hp; [|discriminate].
      apply elem_of_cons in Hin as [->|Hin]; [congruence|].
      eapply IH; eauto.
  - destruct (collect_Raise _ _ _ _ Hc) as (k & -> & _). by exists k.
Qed.

Lemma collect_all_cached cache ids acc r :
  collect cache ids acc = Return r → ∀ id, id ∈ ids → is_Some (cache !! id).
Proof.
  intros Hc id Hin. destruct (cache !! id) eqn:Hid; [eauto|].
  destruct (collect_absent cache ids acc id Hin Hid) as [k Hk]. congruence.
Qed.

(** *** Cold start *)

Lemma training_frame_jobs st st' :
  jobs st' = jobs st →
  training_frame st' = training_frame st ∧ fitted_model st' = fitted_model st.
Proof.
  intros E. unfold fitted_model, training_frame, fetch_features_and_pay.
  rewrite E. auto.
Qed.

Lemma after_read_frame st :
  training_frame (after_read st) = training_frame st
  ∧ fitted_model (after_read st) = fitted_model st.
Proof. apply training_frame_jobs, after_read_fields. Qed.

(** C6, as the code has it: on a cold start below the threshold, with no
    model.pkl on disk [predict] trains from scratch (the training query
    follows the look-up of the file, nothing is unpickled, and the fitted
    pipeline is the model when rows survive); with a model.pkl that does not
    unpickle, the error of [joblib.load] leaves [predict], before any query,
    with still no model in memory. *)
Theorem cold_start_artifact ids st :
  ids ≠ [] → model st = None → shouldRetrain st = false →
  (modelPklFile st = None →
     events_since st (predict ids st).2
     = [PathExists modelConfigFilepath;
        if on_disk (modelConfigFile st) then JsonLoad else JsonDump zeroConfig;
        PathExists modelPklFilepath;
        Execute SelectFeaturesAndPay]
       ++ (if bool_decide (length (training_frame st) = 0%nat) then []
           else [JoblibDump;
                 JsonDump {| dbChangeCounter := 0;
                             lastTrainedRowCount :=
                               Z.of_nat (length (training_frame st)) |}])
       ++ [Execute SelectAllFeatures]
     ∧ (training_frame st ≠ [] →
        model (predict ids st).2 = Some (fitted_model st)))
  ∧ (modelPklFile st = Some Unreadable →
     (predict ids st).1 = Raise UnpicklingError
     ∧ model (predict ids st).2 = None
     ∧ events_since st (predict ids st).2
       = [PathExists modelConfigFilepath;
          if on_disk (modelConfigFile st) then JsonLoad else JsonDump zeroConfig;
          PathExists modelPklFilepath;
          JoblibLoad]).
Proof.
  intros Hids Em E. split; intros Ep.
  - rewrite predict_state, refresh_cold_missing by done.
    set (st1 := log (PathExists modelPklFilepath) (after_read st)).
    destruct (everything_fields (after_train st1)) as (Hm & _ & _ & _ & Ht).
    destruct (training_frame_jobs (after_read st) st1 eq_refl) as [Ef1 Ef2].
    destruct (after_read_frame st) as [Ef3 Ef4].
    split.
    + apply events_since_app. rewrite Ht, after_train_trace.
      rewrite Ef1, Ef3. unfold st1. simpl. rewrite after_read_trace.
      rewrite <- !app_assoc. reflexivity.
    + intros Hf. rewrite Hm.
      destruct (after_train_fit st1) as (-> & _); [congruence|]. congruence.
  - rewrite predict_run, refresh_cold_unreadable by done. simpl.
    destruct (after_read_fields st) as (Hm & _).
    split; [reflexivity|]. split; [congruence|].
    apply events_since_app. simpl. rewrite after_read_trace.
    rewrite <- !app_assoc. reflexivity.
Qed.

(** *** The incremental path *)

Lemma elem_of_dirty ids st id :
  id ∈ dirty ids st ↔ id ∈ ids ∧ predictionCache st !! id = None.
Proof. unfold dirty. rewrite list_elem_of_filter. tauto. Qed.

Lemma dirty_cache dirtyIDs st id :
  dirtyIDs ≠ [] → id ∉ dirtyIDs →
  predictionCache (_predictAndCacheDirtyIDs dirtyIDs st).2 !! id
  = predictionCache st !! id.
Proof.
  intros E Hid. rewrite dirty_run by done. simpl.
  destruct (model st); [|reflexivity].
  destruct (pipeline_predict _ _); [|reflexivity]. simpl.
  apply fill_lookup_notin. rewrite list_elem_of_In, in_map_iff.
  intros (j & <- & Hj). apply list_elem_of_In, list_elem_of_filter in Hj.
  tauto.
Qed.

Lemma incremental_fetches ids st fitted :
  ids ≠ [] → model st = Some fitted → shouldRetrain st = false →
  fetches_since st (predict ids st).2
  = match dirty ids st with
    | [] => []
    | _ => [Execute (SelectFeaturesIn (dirty ids st))]
    end.
Proof.
  intros Hids Em E. unfold fetches_since.
  rewrite predict_state, (refresh_incremental _ _ fitted) by done.
  destruct (dirty ids st) as [|d ds] eqn:Ed.
  - simpl. rewrite (events_since_app _ _ _ (after_read_trace st)).
    simpl. destruct (on_disk _); reflexivity.
  - destruct (dirty_fields (d :: ds) (after_read st)) as (_ & _ & _ & _ & Ht);
      [done|].
    rewrite after_read_trace, <- app_assoc in Ht.
    rewrite (events_since_app _ _ _ Ht).
    simpl. destruct (on_disk _); reflexivity.
Qed.

Lemma incremental_cache ids st fitted id :
  ids ≠ [] → model st = Some fitted → shouldRetrain st = false →
  id ∉ dirty ids st →
  predictionCache (predict ids st).2 !! id = predictionCache st !! id.
Proof.
  intros Hids Em E Hid.
  destruct (after_read_fields st) as (_ & Hc & _).
  rewrite predict_state, (refresh_incremental _ _ fitted) by done.
  destruct (dirty ids st) as [|d ds] eqn:Ed; [simpl; congruence|].
  rewrite dirty_cache by done. congruence.
Qed.

(** C7: on the incremental path (a model in memory, load factor not above
    the threshold) the one query [predict] may run asks for exactly the
    requested ids that have no cache entry, and it runs none when there are
    none; every cache entry of another id stays as it was.  So after
    [markDirtyIDs([x])] the next [predict([x])] fetches [x] again, and
    [predict([y])] for a cached [y ≠ x] fetches nothing. *)
Theorem incremental_path_fetches_dirty_only :
  (∀ ids st id, id ∈ dirty ids st ↔ id ∈ ids ∧ predictionCache st !! id = None)
  ∧ (∀ ids st fitted,
       ids ≠ [] → model st = Some fitted → shouldRetrain st = false →
       fetches_since st (predict ids st).2
       = match dirty ids st with
         | [] => []
         | _ => [Execute (SelectFeaturesIn (dirty ids st))]
         end
       ∧ (∀ id, id ∉ dirty ids st →
            predictionCache (predict ids st).2 !! id = predictionCache st !! id))
  ∧ (∀ x y st fitted,
       model st = Some fitted → shouldRetrain st = false →
       let st1 := (markDirtyIDs [x] st).2 in
       fetches_since st1 (predict [x] st1).2 = [Execute (SelectFeaturesIn [x])]
       ∧ (y ≠ x → is_Some (predictionCache st !! y) →
          fetches_since st1 (predict [y] st1).2 = [])).
Proof.
  split; [apply elem_of_dirty|]. split.
  - intros ids st fitted Hids Em E. split.
    + by apply (incremental_fetches ids st fitted).
    + intros id Hid. by apply (incremental_cache ids st fitted).
  - intros x y st fitted Em E st1.
    assert (Em1 : model st1 = Some fitted) by exact Em.
    assert (E1 : shouldRetrain st1 = false) by exact E.
    assert (Hx : predictionCache st1 !! x = None).
    { unfold st1. simpl. apply lookup_delete_eq. }
    split.
    + rewrite (incremental_fetches [x] st1 fitted) by done.
      unfold dirty. rewrite filter_cons_True by done. reflexivity.
    + intros Hne [p Hp].
      rewrite (incremental_fetches [y] st1 fitted) by done.
      unfold dirty. rewrite filter_cons_False; [reflexivity|].
      unfold st1. simpl. rewrite lookup_delete_ne by done. congruence.
Qed.

(** *** The full retrain *)

Lemma training_frame_nonempty_jobs st : training_frame st ≠ [] → jobs st ≠ [].
Proof.
  intros Hf E. apply Hf. unfold training_frame, fetch_features_and_pay.
  rewrite E. reflexivity.
Qed.

(** C3: when the load factor is above the threshold and rows survive the
    filtering, [predict] fits the pipeline on those rows, keeps it as the
    model and dumps it to model.pkl, writes the training state with a
    counter of 0 and the number of rows used, and replaces the whole cache
    by the predictions for every row of the table (given that the library
    predicts a batch that is not empty). *)
Theorem full_retrain_path ids st :
  predict_total →
  ids ≠ [] → shouldRetrain st = true → training_frame st ≠ [] →
  ∃ logPredictedPayList,
    pipeline_predict (fitted_model st) (all_features st)
    = Return logPredictedPayList
    ∧ length logPredictedPayList = length (jobs st)
    ∧ let st' := (predict ids st).2 in
      model st' = Some (fitted_model st)
      ∧ modelPklFile st' = Some (Pickled (fitted_model st))
      ∧ modelConfigFile st'
        = Some {| dbChangeCounter := 0;
                  lastTrainedRowCount := Z.of_nat (length (training_frame st)) |}
      ∧ dom (predictionCache st') = list_to_set (map job_id (jobs st))
      ∧ (∀ i j y,
           jobs st !! i = Some j → logPredictedPayList !! i = Some y →
           job_id j ∉ map job_id (drop (S i) (jobs st)) →
           predictionCache st' !! job_id j = Some (np_exp y))
      ∧ events_since st st'
        = [PathExists modelConfigFilepath; JsonLoad;
           Execute SelectFeaturesAndPay; JoblibDump;
           JsonDump {| dbChangeCounter := 0;
                       lastTrainedRowCount :=
                         Z.of_nat (length (training_frame st)) |};
           Execute SelectAllFeatures].
Proof.
  intros Hlib Hids E Hf.
  pose proof (training_frame_nonempty_jobs st Hf) as Hjobs.
  destruct (Hlib (fitted_model st) (all_features st)) as (ys & Hys & Hlen).
  { unfold all_features. destruct (jobs st); [congruence|discriminate]. }
  unfold all_features in Hlen. rewrite length_map in Hlen.
  exists ys. split; [exact Hys|]. split; [exact Hlen|]. cbv zeta.
  rewrite predict_state, refresh_retrain by done.
  destruct (after_read_fields st) as (_ & _ & Hj1 & _).
  destruct (after_read_frame st) as [Ef1 Ef2].
  assert (Hf1 : training_frame (after_read st) ≠ []) by (by rewrite Ef1).
  destruct (after_train_fit (after_read st) Hf1) as (Hm2 & Hp2 & Hc2).
  destruct (after_train_fields (after_read st)) as (Hj2 & _).
  destruct (everything_fields (after_train (after_read st)))
    as (Hm & Hj & Hc & Hp & Ht).
  rewrite Hm, Hp, Hc, Hm2, Hp2, Hc2, Ef1, Ef2.
  split; [reflexivity|]. split; [reflexivity|]. split; [reflexivity|].
  assert (Hcache :
    predictionCache (_predictAndCacheEverything (after_train (after_read st))).2
                   = fill ∅ (map job_id (jobs st)) (map np_exp ys)).
  { rewrite everything_nonempty by congruence. cbv zeta.
    rewrite Hm2. unfold all_features. rewrite Hj2, Hj1.
    fold (all_features st). rewrite Ef2, Hys. reflexivity. }
  rewrite Hcache. split; [|split].
  - rewrite fill_dom by (rewrite !length_map; lia). set_solver.
  - intros i j y Hi Hy Hlast.
    apply (fill_lookup_last _ _ _ i).
    + rewrite list_lookup_fmap, Hi. reflexivity.
    + rewrite list_lookup_fmap, Hy. reflexivity.
    + rewrite <- fmap_drop. exact Hlast.
  - apply events_since_app. rewrite Ht, after_train_trace.
    rewrite after_read_trace.
    destruct (shouldRetrain_on_disk st E) as [c ->].
    case_bool_decide as E'.
    { destruct (training_frame (after_read st)); [congruence|discriminate]. }
    rewrite Ef1. simpl. rewrite <- !app_assoc. reflexivity.
Qed.

(** *** Ids the table does not have *)

Lemma everything_absent st x :
  predictionCache st !! x = None → x ∉ map job_id (jobs st) →
  predictionCache (_predictAndCacheEverything st).2 !! x = None.
Proof.
  intros Hx Hstore. destruct (decide (jobs st = [])) as [E|E].
  - rewrite everything_empty by done. exact Hx.
  - rewrite everything_nonempty by done. cbv zeta.
    destruct (model st); [|exact Hx].
    destruct (pipeline_predict _ _); [|exact Hx]. simpl.
    rewrite fill_lookup_notin by done. apply lookup_empty.
Qed.

Lemma dirty_absent dirtyIDs st x :
  dirtyIDs ≠ [] →
  predictionCache st !! x = None → x ∉ map job_id (jobs st) →
  predictionCache (_predictAndCacheDirtyIDs dirtyIDs st).2 !! x = None.
Proof.
  intros E Hx Hstore. rewrite dirty_run by done. cbv zeta.
  destruct (model st); [|exact Hx].
  destruct (pipeline_predict _ _); [|exact Hx]. simpl.
  rewrite fill_lookup_notin; [exact Hx|].
  intros Hin. apply Hstore.
  rewrite list_elem_of_In, in_map_iff in Hin |- *.
  destruct Hin as (j & <- & Hj). exists j. split; [done|].
  apply list_elem_of_In, list_elem_of_filter in Hj.
  apply list_elem_of_In. tauto.
Qed.

Lemma refresh_absent ids st x :
  predictionCache st !! x = None → x ∉ map job_id (jobs st) →
  predictionCache (refresh ids st).2 !! x = None.
Proof.
  intros Hx Hstore.
  destruct (after_read_fields st) as (_ & Hc & Hj & _).
  assert (Hx1 : predictionCache (after_read st) !! x = None) by congruence.
  assert (Hs1 : x ∉ map job_id (jobs (after_read st))) by congruence.
  destruct (shouldRetrain st) eqn:E.
  - rewrite refresh_retrain by done.
    destruct (after_train_fields (after_read st)) as (Hj2 & Hc2).
    apply everything_absent; congruence.
  - destruct (model st) as [fitted|] eqn:Em.
    + rewrite (refresh_incremental _ _ fitted) by done.
      destruct (dirty ids st) eqn:Ed; [exact Hx1|].
      by apply dirty_absent.
    + destruct (modelPklFile st) as [[loaded|]|] eqn:Ep.
      * rewrite (refresh_cold_loaded _ _ loaded) by done.
        by apply everything_absent.
      * rewrite refresh_cold_unreadable by done. exact Hx1.
      * rewrite refresh_cold_missing by done.
        destruct (after_train_fields
                    (log (PathExists modelPklFilepath) (after_read st)))
          as (Hj2 & Hc2).
        apply everything_absent; [rewrite Hc2|rewrite Hj2]; done.
Qed.

(** C10, as the code has it: when a requested id has neither a cache entry
    nor a row in the table, [predict] returns no mapping but raises; and
    whenever the three cases before the shared code run to their end, what
    it raises is the [KeyError] of the final look-up, for a requested id
    that is absent from the cache. *)
Theorem predict_raises_on_missing_id ids st x :
  x ∈ ids → predictionCache st !! x = None → x ∉ map job_id (jobs st) →
  (∃ e, (predict ids st).1 = Raise e)
  ∧ (∀ st1,
       refresh ids st = (Return tt, st1) →
       ∃ k, predict ids st = (Raise (KeyError k), st1)
            ∧ k ∈ ids ∧ predictionCache st1 !! k = None).
Proof.
  intros Hin Hx Hstore.
  assert (Hids : ids ≠ []) by (intros ->; by apply elem_of_nil in Hin).
  pose proof (refresh_absent ids st x Hx Hstore) as Habs.
  rewrite predict_run by done.
  destruct (refresh ids st) as [[[]|e] st'] eqn:Er; simpl in Habs.
  - destruct (collect_absent (predictionCache st') ids ∅ x Hin Habs) as [k Hk].
    split; [exists (KeyError k); simpl; exact Hk|].
    intros st1 [= <-]. exists k. rewrite Hk. split; [reflexivity|].
    destruct (collect_Raise _ _ _ _ Hk) as (k' & [= <-] & Hk1 & Hk2). auto.
  - split; [by exists e|]. intros st1 [=].
Qed.

(** *** Calling [predict] twice *)

Lemma shouldRetrain_config st st' :
  modelConfigFile st' = Some (current_config st) →
  shouldRetrain st' = shouldRetrain st.
Proof.
  intros E. unfold shouldRetrain. do 2 f_equal.
  unfold current_config at 1. by rewrite E.
Qed.

Lemma dirty_all_cached ids st :
  (∀ id, id ∈ ids → is_Some (predictionCache st !! id)) → dirty ids st = [].
Proof.
  intros Hall. unfold dirty. induction ids as [|id ids IH]; [reflexivity|].
  destruct (Hall id) as [p Hp]; [left|].
  rewrite filter_cons_False by congruence.
  apply IH. intros id' Hin. apply Hall. by right.
Qed.

(** A call that finds a model, a load factor below the threshold and every
    requested id in the cache reads the training state and answers. *)
Lemma predict_cache_hit ids st fitted :
  ids ≠ [] → model st = Some fitted → shouldRetrain st = false →
  (∀ id, id ∈ ids → is_Some (predictionCache st !! id)) →
  predict ids st = (collect (predictionCache st) ids ∅, after_read st)
  ∧ fetches_since st (predict ids st).2 = [].
Proof.
  intros Hids Em E Hall.
  pose proof (dirty_all_cached ids st Hall) as Hd. split.
  - rewrite predict_run, (refresh_incremental _ _ fitted), Hd by done.
    destruct (after_read_fields st) as (_ & -> & _). reflexivity.
  - rewrite (incremental_fetches ids st fitted), Hd by done. reflexivity.
Qed.

Lemma predict_Return ids st r st1 :
  ids ≠ [] → predict ids st = (Return r, st1) →
  refresh ids st = (Return tt, st1)
  ∧ collect (predictionCache st1) ids ∅ = Return r.
Proof.
  intros Hids. rewrite predict_run by done.
  destruct (refresh ids st) as [[[]|e] st']; [|discriminate].
  intros [= Hc <-]. auto.
Qed.

(** [_predictAndCacheEverything] run again on the same table with the same
    model rebuilds the same cache. *)
Lemma everything_again s st1 s' :
  _predictAndCacheEverything s = (Return tt, st1) →
  jobs s' = jobs s → model s' = model s →
  predictionCache s' = predictionCache st1 →
  ∃ st2, _predictAndCacheEverything s' = (Return tt, st2)
         ∧ predictionCache st2 = predictionCache st1.
Proof.
  intros Hrun Hj Hm Hc. destruct (decide (jobs s = [])) as [E|E].
  - rewrite everything_empty by congruence. eexists. split; [reflexivity|].
    exact Hc.
  - rewrite everything_nonempty in Hrun by done.
    rewrite everything_nonempty by congruence. cbv zeta in *.
    unfold all_features in *. rewrite Hm, Hj.
    destruct (model s); [|discriminate].
    destruct (pipeline_predict _ _) as [ys|]; [|discriminate].
    destruct (decide _); [|discriminate].
    injection Hrun as <-. eexists. split; reflexivity.
Qed.

(** After a call that returned, a model is in memory and the load factor is
    not above the threshold, unless the call trained on nothing. *)
Lemma refresh_settles ids st st1 :
  refresh ids st = (Return tt, st1) → ¬ trains_on_nothing st →
  (∃ fitted, model st1 = Some fitted) ∧ shouldRetrain st1 = false.
Proof.
  intros Hrun Hnot.
  assert (Hst1 : st1 = (refresh ids st).2) by (by rewrite Hrun).
  destruct (after_read_fields st) as (Hm0 & _ & _ & Hp0 & Hc0).
  assert (Htrained : ∀ s, jobs s = jobs (after_read st) →
            training_frame st ≠ [] →
            (∃ fitted, model (_predictAndCacheEverything (after_train s)).2
                       = Some fitted)
            ∧ shouldRetrain (_predictAndCacheEverything (after_train s)).2
              = false).
  { intros s Hj Hf.
    destruct (training_frame_jobs (after_read st) s Hj) as [Ef _].
    destruct (after_read_frame st) as [Ef' _].
    destruct (after_train_fit s) as (Hm & _ & Hc); [congruence|].
    destruct (everything_fields (after_train s)) as (-> & _ & Hc' & _).
    split; [eauto|].
    unfold shouldRetrain, current_config. rewrite Hc', Hc.
    apply loadFactor_zero_changes. }
  destruct (shouldRetrain st) eqn:E.
  - rewrite refresh_retrain in Hst1 by done. subst st1.
    apply Htrained; [reflexivity|].
    intros Hf. apply Hnot. split; auto.
  - destruct (model st) as [fitted|] eqn:Em.
    + rewrite (refresh_incremental _ _ fitted) in Hst1 by done.
      destruct (dirty ids st) as [|d ds] eqn:Ed.
      * subst st1. simpl. split; [exists fitted; congruence|].
        by rewrite (shouldRetrain_config st).
      * destruct (dirty_fields (d :: ds) (after_read st))
          as (Hm & _ & Hc & _); [done|].
        subst st1. split; [exists fitted; congruence|].
        rewrite (shouldRetrain_config st); congruence.
    + destruct (modelPklFile st) as [[loaded|]|] eqn:Ep.
      * rewrite (refresh_cold_loaded _ _ loaded) in Hst1 by done.
        destruct (everything_fields (set_model (Some loaded)
          (log JoblibLoad (log (PathExists modelPklFilepath) (after_read st)))))
          as (Hm & _ & Hc & _).
        subst st1. split; [exists loaded; exact Hm|].
        rewrite (shouldRetrain_config st); [done|]. rewrite Hc. exact Hc0.
      * rewrite refresh_cold_unreadable in Hrun by done. discriminate.
      * rewrite refresh_cold_missing in Hst1 by done. subst st1.
        apply Htrained; [reflexivity|].
        intros Hf. apply Hnot. split; auto.
Qed.

(** A second call after one that trained on nothing goes the same way and
    leaves the same cache. *)
Lemma refresh_again_on_nothing ids st st1 :
  refresh ids st = (Return tt, st1) → trains_on_nothing st →
  ∃ st2, refresh ids st1 = (Return tt, st2)
         ∧ predictionCache st2 = predictionCache st1.
Proof.
  intros Hrun [Hf Hcase].
  destruct (after_read_fields st) as (Hm0 & Hc0 & Hj0 & Hp0 & Hf0).
  destruct (after_read_fields st1) as (Hm1 & Hc1 & Hj1 & Hp1 & Hf1).
  assert (Hnoop : ∀ s, jobs s = jobs st →
            after_train s = log (Execute SelectFeaturesAndPay) s).
  { intros s Hj. apply after_train_noop.
    destruct (training_frame_jobs st s Hj) as [-> _]. exact Hf. }
  destruct (shouldRetrain st) eqn:E.
  - rewrite refresh_retrain, Hnoop in Hrun by done.
    destruct (everything_fields (log (Execute SelectFeaturesAndPay) (after_read st)))
      as (Hm & Hj & Hc & Hp & _).
    rewrite Hrun in Hm, Hj, Hc, Hp. simpl in Hm, Hj, Hc, Hp.
    assert (E1 : shouldRetrain st1 = true).
    { rewrite (shouldRetrain_config st); [done|]. congruence. }
    rewrite refresh_retrain, Hnoop by congruence.
    eapply everything_again; [exact Hrun|simpl; congruence..].
  - destruct Hcase as [|[Em Ep]]; [discriminate|].
    rewrite refresh_cold_missing, Hnoop in Hrun by (simpl; congruence).
    destruct (everything_fields (log (Execute SelectFeaturesAndPay)
                (log (PathExists modelPklFilepath) (after_read st))))
      as (Hm & Hj & Hc & Hp & _).
    rewrite Hrun in Hm, Hj, Hc, Hp. simpl in Hm, Hj, Hc, Hp.
    assert (E1 : shouldRetrain st1 = false).
    { rewrite (shouldRetrain_config st); [done|]. congruence. }
    rewrite refresh_cold_missing, Hnoop by (simpl; congruence).
    eapply everything_again; [exact Hrun|simpl; congruence..].
Qed.

(** C8, as the code has it: when a call [predict(ids)] has returned, the
    same call made again right away returns the same mapping; and it runs no
    query, unless the first call trained on nothing (its training step found
    no row to fit on, so the counters were not reset or no model came into
    memory, and the second call trains and predicts everything again). *)
Theorem predict_twice ids st r st1 :
  predict ids st = (Return r, st1) →
  (predict ids st1).1 = Return r
  ∧ (¬ trains_on_nothing st → fetches_since st1 (predict ids st1).2 = []).
Proof.
  intros Hrun. destruct ids as [|i ids].
  { injection Hrun as <- <-. split; [reflexivity|]. intros _. simpl.
    unfold fetches_since, events_since. by rewrite drop_all. }
  destruct (predict_Return (i :: ids) st r st1) as [Href Hcol]; [done..|].
  pose proof (collect_all_cached _ _ _ _ Hcol) as Hall.
  split.
  - rewrite predict_run by done.
    assert (Hsame : ∃ st2, refresh (i :: ids) st1 = (Return tt, st2)
                           ∧ predictionCache st2 = predictionCache st1).
    { destruct (shouldRetrain st) eqn:E, (training_frame st) eqn:Ef,
        (model st) eqn:Em, (modelPklFile st) eqn:Ep;
        try (apply (refresh_again_on_nothing _ st); [done|];
             split; [done|]; auto; fail);
        (destruct (refresh_settles _ _ _ Href) as [[fitted Hm1] E1];
         [intros [Hf [?|[? ?]]]; congruence|];
         rewrite (refresh_incremental _ _ fitted),
           (dirty_all_cached _ _ Hall) by done;
         eexists; split; [reflexivity|]; apply after_read_fields). }
    destruct Hsame as (st2 & -> & ->). simpl. exact Hcol.
  - intros Hnot.
    destruct (refresh_settles _ _ _ Href Hnot) as [[fitted Hm1] E1].
    by apply (predict_cache_hit _ _ fitted).
Qed.

(** *** A table without a usable pay *)

(** C1, at a failing input: on a first run over a table whose only job has
    no pay, the requested id has its feature row, yet [predict] returns no
    mapping: [_train] fits nothing, no model comes into memory, and
    [_predictAndCacheEverything] raises on [self.model.predict]. *)
Theorem predict_unpaid_table_raises (id : Z) (type : string) (hours : float) :
  let unpaid_job := {| job_id := id; job_type := type;
                       hours_worked := hours; pay := None |} in
  let st := first_run [unpaid_job] in
  id ∈ map job_id (jobs st)
  ∧ (predict [id] st).1 = Raise AttributeError
  ∧ model (predict [id] st).2 = None
  ∧ trace (predict [id] st).2
    = [PathExists modelConfigFilepath; JsonDump zeroConfig;
       PathExists modelPklFilepath; Execute SelectFeaturesAndPay;
       Execute SelectAllFeatures].
Proof.
  cbv zeta. split; [left|]. repeat split.
Qed.

(** *** What [predict] returns when a model is there *)

Lemma everything_covers st fitted :
  predict_total → jobs st ≠ [] → model st = Some fitted →
  ∃ st1, _predictAndCacheEverything st = (Return tt, st1)
         ∧ dom (predictionCache st1) = list_to_set (map job_id (jobs st)).
Proof.
  intros Hlib Hj Hm.
  destruct (Hlib fitted (all_features st)) as (ys & Hys & Hlen).
  { unfold all_features. destruct (jobs st); [congruence|discriminate]. }
  unfold all_features in Hlen. rewrite length_map in Hlen.
  rewrite everything_nonempty by done. cbv zeta. rewrite Hm, Hys.
  rewrite decide_True by lia. eexists. split; [reflexivity|]. simpl.
  rewrite fill_dom by (rewrite !length_map; lia). set_solver.
Qed.

Lemma dirty_covers dirtyIDs st fitted :
  predict_total → dirtyIDs ≠ [] → model st = Some fitted →
  (∀ id, id ∈ dirtyIDs → id ∈ map job_id (jobs st)) →
  ∃ st1, _predictAndCacheDirtyIDs dirtyIDs st = (Return tt, st1)
         ∧ dom (predictionCache st1)
           = dom (predictionCache st) ∪ list_to_set dirtyIDs.
Proof.
  intros Hlib Hd Hm Hstore.
  set (data := filter (λ j, job_id j ∈ dirtyIDs) (jobs st)).
  assert (Hids : ∀ id, id ∈ map job_id data ↔ id ∈ dirtyIDs).
  { intros id. rewrite !list_elem_of_In, in_map_iff. split.
    - intros (j & <- & Hj).
      apply list_elem_of_In, list_elem_of_filter in Hj.
      apply list_elem_of_In. tauto.
    - intros Hin. apply list_elem_of_In in Hin.
      pose proof (Hstore id Hin) as Hs.
      rewrite list_elem_of_In, in_map_iff in Hs.
      destruct Hs as (j & <- & Hj). exists j. split; [done|].
      apply list_elem_of_In, list_elem_of_filter.
      split; [done|by apply list_elem_of_In]. }
  assert (Hdata : data ≠ []).
  { destruct dirtyIDs as [|d ds]; [done|].
    assert (Hin : d ∈ map job_id data) by (apply Hids; left).
    intros E. rewrite E in Hin. by apply elem_of_nil in Hin. }
  destruct (Hlib fitted (map (λ j, (job_type j, hours_worked j)) data))
    as (ys & Hys & Hlen).
  { destruct data; [congruence|discriminate]. }
  rewrite length_map in Hlen.
  rewrite dirty_run by done. cbv zeta. fold data. rewrite Hm, Hys.
  rewrite decide_True by lia. eexists. split; [reflexivity|]. simpl.
  rewrite fill_dom by (rewrite !length_map; lia).
  f_equal. apply set_eq. intros id. rewrite !elem_of_list_to_set. apply Hids.
Qed.

(** When every requested id has a row, the library predicts, model.pkl
    unpickles if it is there, and the call does not end up without a model
    after training on nothing, [predict] returns a mapping over exactly the
    requested ids, with the values the cache has on return. *)
Lemma predict_returns_requested ids st :
  predict_total → ids ≠ [] →
  (∀ id, id ∈ ids → id ∈ map job_id (jobs st)) →
  modelPklFile st ≠ Some Unreadable →
  ¬ (trains_on_nothing st ∧ model st = None) →
  ∃ r st1,
    predict ids st = (Return r, st1)
    ∧ dom r = list_to_set ids
    ∧ (∀ id, id ∈ ids → r !! id = predictionCache st1 !! id).
Proof.
  intros Hlib Hids Hstore Hpkl Hmodel.
  assert (Hjobs : jobs st ≠ []).
  { destruct ids as [|i ids]; [done|]. intros E.
    specialize (Hstore i ltac:(left)). rewrite E in Hstore.
    by apply elem_of_nil in Hstore. }
  destruct (after_read_fields st) as (Hm0 & Hc0 & Hj0 & Hp0 & _).
  assert (Hcached : ∃ st1, refresh ids st = (Return tt, st1)
            ∧ ∀ id, id ∈ ids → is_Some (predictionCache st1 !! id)).
  { assert (Hall : ∀ s fitted, jobs s = jobs st → model s = Some fitted →
              ∃ st1, _predictAndCacheEverything s = (Return tt, st1)
                ∧ ∀ id, id ∈ ids → is_Some (predictionCache st1 !! id)).
    { intros s fitted Hj Hm.
      destruct (everything_covers s fitted) as (st1 & Hrun & Hdom);
        [done|congruence|done|].
      exists st1. split; [done|]. intros id Hin.
      apply elem_of_dom. rewrite Hdom, Hj.
      apply elem_of_list_to_set. by apply Hstore. }
    assert (Htrain : ∀ s, jobs s = jobs st → model s = model st →
              (training_frame st = [] → ∃ fitted, model st = Some fitted) →
              ∃ fitted, model (after_train s) = Some fitted).
    { intros s Hj Hm Hold.
      destruct (training_frame_jobs st s Hj) as [Ef _].
      destruct (decide (training_frame st = [])) as [E|E].
      - rewrite after_train_noop by congruence. simpl.
        destruct (Hold E) as [fitted Hf]. exists fitted. congruence.
      - destruct (after_train_fit s) as (-> & _); [congruence|]. eauto. }
    destruct (shouldRetrain st) eqn:E.
    - rewrite refresh_retrain by done.
      destruct (Htrain (after_read st)) as [fitted Hf]; [done|done| |].
      { intros Hf. destruct (model st) as [fitted|] eqn:Em; [eauto|].
        destruct Hmodel. split; [|done]. split; [done|]. by left. }
      destruct (after_train_fields (after_read st)) as [Hj _].
      apply (Hall _ fitted); congruence.
    - destruct (model st) as [fitted|] eqn:Em.
      + rewrite (refresh_incremental _ _ fitted) by done.
        destruct (dirty ids st) as [|d ds] eqn:Ed.
        * eexists. split; [reflexivity|]. intros id Hin. rewrite Hc0.
          destruct (predictionCache st !! id) eqn:Hid; [eauto|].
          assert (Hd : id ∈ dirty ids st) by (by apply elem_of_dirty).
          rewrite Ed in Hd. by apply elem_of_nil in Hd.
        * destruct (dirty_covers (d :: ds) (after_read st) fitted)
            as (st1 & Hrun & Hdom); [done|done|congruence| |].
          { intros id Hin. rewrite Hj0. apply Hstore.
            rewrite <- Ed in Hin. by apply elem_of_dirty in Hin as [? _]. }
          exists st1. split; [done|]. intros id Hin.
          apply elem_of_dom. rewrite Hdom, Hc0, <- Ed.
          destruct (predictionCache st !! id) eqn:Hid.
          -- apply elem_of_union_l, elem_of_dom. eauto.
          -- apply elem_of_union_r, elem_of_list_to_set.
             by apply elem_of_dirty.
      + destruct (modelPklFile st) as [[loaded|]|] eqn:Ep; [|done|].
        * rewrite (refresh_cold_loaded _ _ loaded) by done.
          by apply (Hall _ loaded).
        * rewrite refresh_cold_missing by done.
          set (s := log (PathExists modelPklFilepath) (after_read st)).
          destruct (Htrain s) as [fitted Hf]; [done|exact Hm0| |].
          { intros Hf. exfalso. apply Hmodel. split; [|done].
            split; [done|]. by right. }
          destruct (after_train_fields s) as [Hj _].
          apply (Hall _ fitted); [|done]. rewrite Hj. exact Hj0. }
  destruct Hcached as (st1 & Hrun & Hall).
  destruct (collect_Return (predictionCache st1) ids ∅ Hall)
    as (r & Hr & Hdom & Hval).
  exists r, st1. rewrite predict_run, Hrun by done.
  split; [by rewrite Hr|]. split; [|done].
  rewrite Hdom. set_solver.
Qed.

(** ** Further properties of the class *)

(** *** Notifications *)

(** X1: [markDirtyIDs(IDs)] never raises, also for ids that have no cache
    entry; afterwards an id has a cache entry exactly when it had one and is
    not among [IDs], with the value it had; the model, the table, both files
    and the record of outside calls are untouched. *)
Theorem markDirtyIDs_forgets_exactly IDs st :
  ∃ st',
    markDirtyIDs IDs st = (Return tt, st')
    ∧ (∀ id, predictionCache st' !! id
             = if decide (id ∈ IDs) then None else predictionCache st !! id)
    ∧ model st' = model st
    ∧ jobs st' = jobs st
    ∧ modelConfigFile st' = modelConfigFile st
    ∧ modelPklFile st' = modelPklFile st
    ∧ trace st' = trace st.
Proof.
  eexists. split; [reflexivity|]. split; [|by repeat split].
  intros id. apply (markDirtyIDs_run IDs st id).
Qed.

Lemma incrementDbChangeCounter_fields x st :
  let st' := (incrementDbChangeCounter x st).2 in
  model st' = model st ∧ predictionCache st' = predictionCache st
  ∧ jobs st' = jobs st ∧ modelPklFile st' = modelPklFile st.
Proof.
  unfold incrementDbChangeCounter, _writeModelConfigFilepath.
  unfold mbind, M_bind. rewrite read_run. run.
  destruct (after_read_fields st) as (? & ? & ? & ? & _). auto.
Qed.

(** X2: when modelConfig.json holds a training state,
    [incrementDbChangeCounter(x)] returns, having added [x] to the persisted
    change counter and kept the trained row count; when the file is
    missing, it returns, having persisted a change counter of [x] and a
    trained row count of 0.  It leaves the model, the cache, the table and
    model.pkl alone; and calling it with [x] and then with [y] persists
    what one call with [x + y] persists. *)
Theorem incrementDbChangeCounter_accumulates x y st :
  let st1 := (incrementDbChangeCounter x st).2 in
  (∀ config,
     modelConfigFile st = Some config →
     (incrementDbChangeCounter x st).1 = Return tt
     ∧ modelConfigFile st1
       = Some {| dbChangeCounter := dbChangeCounter config + x;
                 lastTrainedRowCount := lastTrainedRowCount config |})
  ∧ (modelConfigFile st = None →
     (incrementDbChangeCounter x st).1 = Return tt
     ∧ modelConfigFile st1
       = Some {| dbChangeCounter := x; lastTrainedRowCount := 0 |})
  ∧ model st1 = model st
  ∧ predictionCache st1 = predictionCache st
  ∧ jobs st1 = jobs st
  ∧ modelPklFile st1 = modelPklFile st
  ∧ modelConfigFile (incrementDbChangeCounter y st1).2
    = modelConfigFile (incrementDbChangeCounter (x + y) st).2.
Proof.
  cbv zeta.
  destruct (incrementDbChangeCounter_run x st) as (Hr & Hc & _).
  destruct (incrementDbChangeCounter_fields x st) as (Hm & Hk & Hj & Hp).
  split; [|split].
  - intros config E. split; [exact Hr|].
    rewrite Hc. unfold current_config. by rewrite E.
  - intros E. split; [exact Hr|].
    rewrite Hc. unfold current_config. by rewrite E.
  - repeat (split; [assumption|]).
    destruct (incrementDbChangeCounter_run y (incrementDbChangeCounter x st).2)
      as (_ & -> & _).
    destruct (incrementDbChangeCounter_run (x + y) st) as (_ & -> & _).
    unfold current_config at 1 2. rewrite Hc. simpl.
    by rewrite Z.add_assoc.
Qed.

(** *** The training state file *)

(** X3: reading back what [_writeModelConfigFilepath] wrote returns it;
    [_readModelConfigFilepath] on a missing file creates the zeroed state
    and returns it; on a file that is there it returns its content and
    leaves it as it is; and a second read right after returns the same
    state without writing. *)
Theorem config_file_round_trip :
  (∀ config st,
     (_readModelConfigFilepath (_writeModelConfigFilepath config st).2).1
     = Return config)
  ∧ (∀ st,
       modelConfigFile st = None →
       (_readModelConfigFilepath st).1 = Return zeroConfig
       ∧ modelConfigFile (_readModelConfigFilepath st).2 = Some zeroConfig)
  ∧ (∀ st config,
       modelConfigFile st = Some config →
       (_readModelConfigFilepath st).1 = Return config
       ∧ modelConfigFile (_readModelConfigFilepath st).2 = Some config
       ∧ events_since st (_readModelConfigFilepath st).2
         = [PathExists modelConfigFilepath; JsonLoad])
  ∧ (∀ st,
       let first := _readModelConfigFilepath st in
       let second := _readModelConfigFilepath first.2 in
       second.1 = first.1
       ∧ modelConfigFile second.2 = modelConfigFile first.2
       ∧ events_since first.2 second.2
         = [PathExists modelConfigFilepath; JsonLoad]).
Proof.
  assert (Hsome : ∀ st config,
    modelConfigFile st = Some config →
    (_readModelConfigFilepath st).1 = Return config
    ∧ modelConfigFile (_readModelConfigFilepath st).2 = Some config
    ∧ events_since st (_readModelConfigFilepath st).2
      = [PathExists modelConfigFilepath; JsonLoad]).
  { intros st config Ec. rewrite read_run. simpl.
    destruct (after_read_fields st) as (_ & _ & _ & _ & Hf).
    unfold current_config in *. rewrite Ec in *. simpl in *.
    split; [reflexivity|]. split; [exact Hf|].
    apply events_since_app. rewrite after_read_trace, Ec. reflexivity. }
  split; [|split; [|split; [exact Hsome|]]].
  - intros config st. apply Hsome. reflexivity.
  - intros st Ec. rewrite read_run. simpl.
    destruct (after_read_fields st) as (_ & _ & _ & _ & Hf).
    unfold current_config in *. rewrite Ec in *. auto.
  - intros st. cbv zeta.
    destruct (after_read_fields st) as (_ & _ & _ & _ & Hf).
    rewrite (read_run st). simpl.
    destruct (Hsome (after_read st) (current_config st) Hf) as (-> & -> & ->).
    rewrite Hf. auto.
Qed.

(** *** After a fit *)

Lemma dropna_pay_length df : (length (dropna_pay df) ≤ length df)%nat.
Proof.
  unfold dropna_pay. induction df as [|[x [p|]] df IH]; simpl.
  - done.
  - destruct (Num.is_nan p); simpl.
    + apply Nat.le_le_succ_r. exact IH.
    + apply le_n_S. exact IH.
  - apply Nat.le_le_succ_r. exact IH.
Qed.

Lemma training_frame_length st :
  (length (training_frame st) ≤ length (jobs st))%nat.
Proof.
  unfold training_frame, preprocess, exclude_outliers, with_log_pay,
    nonzero_pay, fetch_features_and_pay.
  etransitivity; [apply length_filter|]. rewrite length_map.
  etransitivity; [apply length_filter|].
  etransitivity; [apply dropna_pay_length|]. by rewrite length_map.
Qed.

(** X4: when rows survive the filtering, [_train] leaves the fitted pipeline
    both in memory and in model.pkl, a change counter of 0 and a trained row
    count between 1 and the number of rows of the table; the load factor is
    then not above the threshold, so the next [predict] does not retrain. *)
Theorem train_leaves_settled_state st :
  training_frame st ≠ [] →
  let st' := (_train st).2 in
  (_train st).1 = Return tt
  ∧ model st' = Some (fitted_model st)
  ∧ modelPklFile st' = Some (Pickled (fitted_model st))
  ∧ dbChangeCounter (current_config st') = 0
  ∧ 0 < lastTrainedRowCount (current_config st') ≤ Z.of_nat (length (jobs st))
  ∧ shouldRetrain st' = false
  ∧ predictionCache st' = predictionCache st
  ∧ jobs st' = jobs st.
Proof.
  intros Hf. cbv zeta. rewrite train_run. simpl.
  destruct (after_train_fit st Hf) as (Hm & Hp & Hc).
  destruct (after_train_fields st) as (Hj & Hk).
  pose proof (training_frame_length st) as Hlen.
  assert (Hpos : (0 < length (training_frame st))%nat).
  { destruct (training_frame st); [done|simpl; lia]. }
  split; [reflexivity|]. split; [exact Hm|]. split; [exact Hp|].
  unfold shouldRetrain, current_config. rewrite Hc. simpl.
  split; [reflexivity|]. split; [lia|].
  split; [apply loadFactor_zero_changes|]. auto.
Qed.

(** *** What a returned mapping is *)

Lemma size_list_to_set_le (l : list Z) :
  (size (list_to_set l : gset Z) ≤ length l)%nat.
Proof.
  induction l as [|i l IH].
  - rewrite list_to_set_nil, size_empty. done.
  - rewrite list_to_set_cons, size_union_alt, size_singleton.
    assert (size (list_to_set l ∖ ({[i]} : gset Z))
            ≤ size (list_to_set l : gset Z))%nat
      by (apply subseteq_size; set_solver).
    simpl. lia.
Qed.

(** X5: whenever [predict] returns, the mapping has exactly the requested
    ids as keys (a repeated id counts once) and, for each, the value the
    cache holds on return. *)
Theorem predict_returned_mapping ids st r st1 :
  predict ids st = (Return r, st1) →
  dom r = list_to_set ids
  ∧ (∀ id, id ∈ ids → r !! id = predictionCache st1 !! id
                      ∧ is_Some (r !! id))
  ∧ (size r ≤ length ids)%nat.
Proof.
  intros Hrun.
  assert (Hcol : collect (predictionCache st1) ids ∅ = Return r).
  { destruct ids as [|i ids].
    - by injection Hrun as <- <-.
    - by destruct (predict_Return (i :: ids) st r st1) as [_ Hc]. }
  pose proof (collect_all_cached _ _ _ _ Hcol) as Hall.
  destruct (collect_Return (predictionCache st1) ids ∅ Hall)
    as (r' & Hr' & Hdom & Hval).
  assert (r' = r) as -> by congruence.
  assert (Hd : dom r = list_to_set ids) by (rewrite Hdom; set_solver).
  split; [exact Hd|]. split.
  - intros id Hin. split; [by apply Hval|].
    rewrite Hval by done. by apply Hall.
  - rewrite <- size_dom, Hd. apply size_list_to_set_le.
Qed.

(** *** The paths of [predict], for invariants *)

(** A property of the state [refresh] leaves follows from the property on
    each of its paths. *)
Lemma refresh_paths (P : State → Prop) ids st :
  (shouldRetrain st = true →
   P (_predictAndCacheEverything (after_train (after_read st))).2) →
  (shouldRetrain st = false → model st = None → modelPklFile st = None →
   P (_predictAndCacheEverything
        (after_train (log (PathExists modelPklFilepath) (after_read st)))).2) →
  (∀ loaded,
     shouldRetrain st = false → model st = None →
     modelPklFile st = Some (Pickled loaded) →
     P (_predictAndCacheEverything
          (set_model (Some loaded)
             (log JoblibLoad
                (log (PathExists modelPklFilepath) (after_read st))))).2) →
  (shouldRetrain st = false → model st = None →
   modelPklFile st = Some Unreadable →
   P (log JoblibLoad (log (PathExists modelPklFilepath) (after_read st)))) →
  (∀ fitted,
     shouldRetrain st = false → model st = Some fitted → dirty ids st = [] →
     P (after_read st)) →
  (∀ fitted,
     shouldRetrain st = false → model st = Some fitted → dirty ids st ≠ [] →
     P (_predictAndCacheDirtyIDs (dirty ids st) (after_read st)).2) →
  P (refresh ids st).2.
Proof.
  intros H1 H2 H3 H4 H5 H6.
  destruct (shouldRetrain st) eqn:E.
  - rewrite refresh_retrain by done. by apply H1.
  - destruct (model st) as [fitted|] eqn:Em.
    + rewrite (refresh_incremental _ _ fitted) by done.
      destruct (dirty ids st) as [|d ds] eqn:Ed.
      * by apply (H5 fitted).
      * by apply (H6 fitted).
    + destruct (modelPklFile st) as [[loaded|]|] eqn:Ep.
      * rewrite (refresh_cold_loaded _ _ loaded) by done. by apply H3.
      * rewrite refresh_cold_unreadable by done. by apply H4.
      * rewrite refresh_cold_missing by done. by apply H2.
Qed.

(** *** The model in memory and model.pkl *)

Lemma in_sync_fields st st' :
  model st' = model st → modelPklFile st' = modelPklFile st →
  in_sync st → in_sync st'.
Proof. unfold in_sync. intros -> ->. done. Qed.

Lemma in_sync_after_train st : in_sync st → in_sync (after_train st).
Proof.
  intros Hs. destruct (decide (training_frame st = [])) as [E|E].
  - rewrite after_train_noop by done. exact Hs.
  - destruct (after_train_fit st E) as (Hm & Hp & _).
    split; [|by rewrite Hp]. intros m. rewrite Hm, Hp. by intros [= ->].
Qed.

Lemma in_sync_refresh ids st : in_sync st → in_sync (refresh ids st).2.
Proof.
  intros Hs.
  destruct (after_read_fields st) as (Hm0 & _ & _ & Hp0 & _).
  assert (Hr : in_sync (after_read st)) by by apply (in_sync_fields st).
  assert (He : ∀ s, in_sync s → in_sync (_predictAndCacheEverything s).2).
  { intros s. destruct (everything_fields s) as (Hm & _ & _ & Hp & _).
    by apply in_sync_fields. }
  apply refresh_paths.
  - intros _. by apply He, in_sync_after_train.
  - intros _ _ _. apply He, in_sync_after_train.
    by apply (in_sync_fields (after_read st)).
  - intros loaded _ _ Ep. apply He. split; [|simpl; congruence].
    intros m. simpl. intros [= ->]. congruence.
  - intros _ _ _. by apply (in_sync_fields (after_read st)).
  - done.
  - intros fitted _ _ Hd.
    destruct (dirty_fields (dirty ids st) (after_read st) Hd)
      as (Hm & _ & _ & Hp & _).
    by apply (in_sync_fields (after_read st)).
Qed.

(** X6: that the model in memory is the pipeline model.pkl holds, and that
    model.pkl unpickles when it is there, holds on a first run and is kept
    by every public method, whether it returns or raises, and by a new
    [ML_MODEL] object made in a later run. *)
Theorem model_and_artifact_stay_in_sync :
  (∀ table, in_sync (first_run table))
  ∧ (∀ st, in_sync st →
       (∀ ids, in_sync (predict ids st).2)
       ∧ (∀ x, in_sync (incrementDbChangeCounter x st).2)
       ∧ (∀ IDs, in_sync (markDirtyIDs IDs st).2)
       ∧ in_sync (reset st).2
       ∧ in_sync (__init__ st)).
Proof.
  split; [intros table; split; [intros m [=]|discriminate]|].
  intros st Hs.
  split; [|split; [|split; [|split]]].
  - intros [|i ids]; [exact Hs|].
    rewrite predict_state by done. by apply in_sync_refresh.
  - intros x.
    destruct (incrementDbChangeCounter_fields x st) as (Hm & _ & _ & Hp).
    by apply (in_sync_fields st).
  - intros IDs. by apply (in_sync_fields st).
  - destruct (reset_run st) as (_ & Hm & _ & _ & Hp & _).
    split; [intros m; rewrite Hm; discriminate|rewrite Hp; discriminate].
  - destruct Hs as [_ Hp]. split; [intros m [=]|exact Hp].
Qed.

(** *** When [predict] fails on ids of the table *)

Lemma predict_without_model_raises ids st :
  ids ≠ [] → jobs st ≠ [] →
  trains_on_nothing st → model st = None →
  predict ids st
  = (Raise AttributeError,
     log (Execute SelectAllFeatures)
       (log (Execute SelectFeaturesAndPay)
          (if shouldRetrain st then after_read st
           else log (PathExists modelPklFilepath) (after_read st)))).
Proof.
  intros Hids Hj [Hf Hcase] Em.
  destruct (after_read_fields st) as (Hm0 & _ & Hj0 & Hp0 & _).
  destruct (after_read_frame st) as [Ef _].
  rewrite predict_run by done.
  destruct (shouldRetrain st) eqn:E.
  - rewrite refresh_retrain, after_train_noop by congruence.
    rewrite everything_nonempty by (simpl; congruence). cbv zeta. simpl.
    by rewrite Hm0, Em.
  - destruct Hcase as [|[_ Ep]]; [discriminate|].
    rewrite refresh_cold_missing by done.
    rewrite after_train_noop
      by (by destruct (training_frame_jobs (after_read st)
            (log (PathExists modelPklFilepath) (after_read st)) eq_refl)
            as [-> _]; congruence).
    rewrite everything_nonempty by (simpl; congruence). cbv zeta. simpl.
    by rewrite Hm0, Em.
Qed.

(** X7: for a request of ids that all have a row, with a library that
    predicts and a model.pkl that unpickles if it is there, [predict] has
    two outcomes.  If the call trains on nothing while no model is in
    memory, it raises [AttributeError], with the cache as it was and still
    no model; in every other case it returns a mapping over exactly the
    requested ids, with the values the cache holds on return. *)
Theorem predict_fails_only_without_model ids st :
  predict_total → ids ≠ [] →
  (∀ id, id ∈ ids → id ∈ map job_id (jobs st)) →
  modelPklFile st ≠ Some Unreadable →
  (trains_on_nothing st ∧ model st = None →
     (predict ids st).1 = Raise AttributeError
     ∧ model (predict ids st).2 = None
     ∧ predictionCache (predict ids st).2 = predictionCache st)
  ∧ (¬ (trains_on_nothing st ∧ model st = None) →
     ∃ r st1,
       predict ids st = (Return r, st1)
       ∧ dom r = list_to_set ids
       ∧ (∀ id, id ∈ ids → r !! id = predictionCache st1 !! id)).
Proof.
  intros Hlib Hids Hstore Hpkl. split.
  - intros [Hnothing Em].
    assert (Hjobs : jobs st ≠ []).
    { destruct ids as [|i ids]; [done|]. intros E.
      specialize (Hstore i ltac:(left)). rewrite E in Hstore.
      by apply elem_of_nil in Hstore. }
    rewrite predict_without_model_raises by done. simpl.
    destruct (after_read_fields st) as (Hm0 & Hc0 & _).
    split; [reflexivity|].
    destruct (shouldRetrain st); simpl; split; congruence.
  - by apply predict_returns_requested.
Qed.

(** *** What a call depends on *)

Ltac memory :=
  repeat match goal with
         | |- _ ∧ _ => split
         | |- same_memory _ _ => unfold same_memory
         end; simpl; try reflexivity; try congruence.

Lemma same_memory_log e st : same_memory (log e st) st.
Proof. memory. Qed.

Lemma same_memory_trans st1 st2 st3 :
  same_memory st1 st2 → same_memory st2 st3 → same_memory st1 st3.
Proof. unfold same_memory. intuition congruence. Qed.

Lemma same_memory_sym st1 st2 : same_memory st1 st2 → same_memory st2 st1.
Proof. unfold same_memory. intuition congruence. Qed.

Lemma same_memory_after_read st st' :
  same_memory st st' → same_memory (after_read st) (after_read st').
Proof.
  intros (Hm & Hc & Hj & Hf & Hp).
  destruct (after_read_fields st) as (? & ? & ? & ? & Hf1).
  destruct (after_read_fields st') as (? & ? & ? & ? & Hf2).
  unfold current_config in *. rewrite Hf in Hf1.
  unfold same_memory. intuition congruence.
Qed.

Lemma same_memory_after_train st st' :
  same_memory st st' → same_memory (after_train st) (after_train st').
Proof.
  intros (Hm & Hc & Hj & Hf & Hp).
  destruct (training_frame_jobs st' st Hj) as [Ef Em].
  unfold after_train. rewrite Ef, Em.
  case_bool_decide; memory.
Qed.

Lemma same_memory_everything st st' :
  same_memory st st' →
  (_predictAndCacheEverything st).1 = (_predictAndCacheEverything st').1
  ∧ same_memory (_predictAndCacheEverything st).2
                (_predictAndCacheEverything st').2.
Proof.
  intros (Hm & Hc & Hj & Hf & Hp).
  destruct (decide (jobs st = [])) as [E|E].
  - rewrite !everything_empty by congruence. memory.
  - rewrite !everything_nonempty by congruence. cbv zeta.
    unfold all_features. rewrite <- Hm, <- Hj.
    destruct (model st) eqn:Em; [|memory].
    destruct (pipeline_predict _ _); memory.
Qed.

Lemma same_memory_dirty dirtyIDs st st' :
  same_memory st st' →
  (_predictAndCacheDirtyIDs dirtyIDs st).1
  = (_predictAndCacheDirtyIDs dirtyIDs st').1
  ∧ same_memory (_predictAndCacheDirtyIDs dirtyIDs st).2
                (_predictAndCacheDirtyIDs dirtyIDs st').2.
Proof.
  intros (Hm & Hc & Hj & Hf & Hp).
  destruct dirtyIDs as [|d ds]; [memory|].
  rewrite !dirty_run by done. cbv zeta. rewrite <- Hm, <- Hj, <- Hc.
  destruct (model st) eqn:Em; [|memory].
  destruct (pipeline_predict _ _); memory.
Qed.

Lemma same_memory_refresh ids st st' :
  same_memory st st' →
  (refresh ids st).1 = (refresh ids st').1
  ∧ same_memory (refresh ids st).2 (refresh ids st').2.
Proof.
  intros Hs. pose proof Hs as (Hm & Hc & Hj & Hf & Hp).
  pose proof (same_memory_after_read _ _ Hs) as Hr.
  assert (E' : shouldRetrain st' = shouldRetrain st).
  { unfold shouldRetrain, current_config. by rewrite Hf. }
  assert (Hd : dirty ids st' = dirty ids st) by (unfold dirty; by rewrite Hc).
  destruct (shouldRetrain st) eqn:E.
  - rewrite !refresh_retrain by congruence.
    by apply same_memory_everything, same_memory_after_train.
  - destruct (model st) as [fitted|] eqn:Em.
    + rewrite (refresh_incremental ids st fitted),
        (refresh_incremental ids st' fitted), Hd by congruence.
      destruct (dirty ids st); [by split|].
      by apply same_memory_dirty.
    + destruct (modelPklFile st) as [[loaded|]|] eqn:Ep.
      * rewrite (refresh_cold_loaded ids st loaded),
          (refresh_cold_loaded ids st' loaded) by congruence.
        apply same_memory_everything.
        destruct Hr as (? & ? & ? & ? & ?). memory.
      * rewrite !refresh_cold_unreadable by congruence.
        destruct Hr as (? & ? & ? & ? & ?). memory.
      * rewrite !refresh_cold_missing by congruence.
        apply same_memory_everything, same_memory_after_train.
        destruct Hr as (? & ? & ? & ? & ?). memory.
Qed.

(** What [predict] returns or raises, and the model, cache, table and files
    it leaves, depend on the model, cache, table and files it finds. *)
Lemma same_memory_predict ids st st' :
  same_memory st st' →
  (predict ids st).1 = (predict ids st').1
  ∧ same_memory (predict ids st).2 (predict ids st').2.
Proof.
  intros Hs. destruct ids as [|i ids]; [by split|].
  rewrite !predict_run by done.
  destruct (same_memory_refresh (i :: ids) st st' Hs) as [Hr Hs'].
  destruct (refresh (i :: ids) st) as [[[]|e] s],
    (refresh (i :: ids) st') as [[[]|e'] s']; simpl in *; try discriminate.
  - split; [|exact Hs']. destruct Hs' as (_ & -> & _). reflexivity.
  - injection Hr as ->. split; [reflexivity|exact Hs'].
Qed.

(** *** [reset] *)

(** X8: [reset] never raises; it leaves no model, an empty cache and neither
    file, removing only a file that is there, and does not touch the table.
    The next [predict] then behaves as on a first run over the same table:
    same result, same model, cache and files afterwards. *)
Theorem reset_returns_to_first_run st :
  let st' := (reset st).2 in
  (reset st).1 = Return tt
  ∧ same_memory st' (first_run (jobs st))
  ∧ events_since st st'
    = PathExists modelConfigFilepath ::
      (if on_disk (modelConfigFile st) then [Remove modelConfigFilepath] else [])
      ++ PathExists modelPklFilepath ::
      (if on_disk (modelPklFile st) then [Remove modelPklFilepath] else [])
  ∧ (∀ ids,
       (predict ids st').1 = (predict ids (first_run (jobs st))).1
       ∧ same_memory (predict ids st').2 (predict ids (first_run (jobs st))).2).
Proof.
  cbv zeta.
  destruct (reset_run st) as (Hr & Hm & Hc & Hf & Hp & Hj).
  assert (Hs : same_memory (reset st).2 (first_run (jobs st)))
    by memory.
  split; [exact Hr|]. split; [exact Hs|]. split.
  - apply events_since_app. unfold reset, path_exists. run.
    destruct (modelConfigFile st) eqn:Ec, (modelPklFile st) eqn:Ep; simpl;
      rewrite ?Ec, ?Ep; simpl; rewrite ?Ec, ?Ep; simpl;
      rewrite <- ?app_assoc; reflexivity.
  - intros ids. by apply same_memory_predict.
Qed.

(** *** Cached values and the rows they were predicted from *)

Lemma fill_lookup_inv cache idList predictedPayList k v :
  fill cache idList predictedPayList !! k = Some v →
  cache !! k = Some v
  ∨ ∃ i, idList !! i = Some k ∧ predictedPayList !! i = Some v.
Proof.
  revert cache predictedPayList.
  induction idList as [|id idList IH]; intros cache ps Hk; [by left|].
  destruct ps as [|p ps]; [by left|]. simpl in Hk.
  destruct (IH _ _ Hk) as [Hc|(i & Hi & Hp)].
  - destruct (decide (id = k)) as [->|Hne].
    + rewrite lookup_insert_eq in Hc. injection Hc as ->.
      right. by exists 0%nat.
    + rewrite lookup_insert_ne in Hc by done. by left.
  - right. by exists (S i).
Qed.

Lemma lookup_map {A B : Type} (g : A → B) (l : list A) (i : nat) :
  map g l !! i = g <$> (l !! i).
Proof. apply (list_lookup_fmap g l i). Qed.

Lemma coherent_fields f st st' :
  model st' = model st → predictionCache st' = predictionCache st →
  jobs st' = jobs st → coherent f st → coherent f st'.
Proof. unfold coherent. intros -> -> ->. done. Qed.

Lemma coherent_no_model f st id :
  coherent f st → model st = None → predictionCache st !! id = None.
Proof.
  intros Hc Em. destruct (predictionCache st !! id) as [v|] eqn:Hv; [|done].
  destruct (Hc id v Hv) as (m & _ & Hm & _). congruence.
Qed.

(** Filling a coherent cache with the predictions for rows of the table
    keeps it coherent. *)
Lemma coherent_fill f st m data :
  model st = Some m → (∀ j, j ∈ data → j ∈ jobs st) →
  coherent f st →
  coherent f
    (set_predictionCache
       (fill (predictionCache st) (map job_id data)
          (map np_exp
             (map (f m) (map (λ j, (job_type j, hours_worked j)) data))))
       st).
Proof.
  intros Em Hdata Hc id v Hv. simpl in Hv.
  destruct (fill_lookup_inv _ _ _ _ _ Hv) as [Hold|(i & Hi & Hp)].
  - exact (Hc id v Hold).
  - rewrite lookup_map in Hi. rewrite !lookup_map in Hp.
    destruct (data !! i) as [j|] eqn:Hj; [|discriminate].
    simpl in Hi, Hp. injection Hi as <-. injection Hp as <-.
    exists m, j. simpl. split; [done|]. split; [|done].
    apply Hdata. by apply list_elem_of_lookup_2 in Hj.
Qed.

Lemma coherent_empty_cache f st :
  predictionCache st = ∅ → coherent f st.
Proof. intros E id v. rewrite E, lookup_empty. discriminate. Qed.

Lemma coherent_everything f st :
  predicts_rowwise f →
  coherent f st ∨ (jobs st ≠ [] ∧ model st ≠ None) →
  coherent f (_predictAndCacheEverything st).2.
Proof.
  intros Hlib Hc. destruct (decide (jobs st = [])) as [E|E].
  - rewrite everything_empty by done. destruct Hc as [Hc|[? _]]; [|done].
    by apply (coherent_fields f st).
  - rewrite everything_nonempty by done. cbv zeta.
    destruct (model st) as [m|] eqn:Em.
    + rewrite Hlib
        by (unfold all_features; destruct (jobs st); [done|discriminate]).
      simpl. unfold all_features.
      assert (Hfresh : coherent f
                (set_predictionCache ∅ (log (Execute SelectAllFeatures) st)))
        by (by apply coherent_empty_cache).
      exact (coherent_fill f
               (set_predictionCache ∅ (log (Execute SelectAllFeatures) st))
               m (jobs st) Em (λ j Hj, Hj) Hfresh).
    + destruct Hc as [Hc|[_ ?]]; [|done]. by apply (coherent_fields f st).
Qed.

Lemma coherent_dirty f dirtyIDs st :
  predicts_rowwise f → coherent f st →
  coherent f (_predictAndCacheDirtyIDs dirtyIDs st).2.
Proof.
  intros Hlib Hc. destruct dirtyIDs as [|d ds]; [exact Hc|].
  rewrite dirty_run by done. cbv zeta.
  set (data := filter (λ j, job_id j ∈ d :: ds) (jobs st)).
  destruct (model st) as [m|] eqn:Em; [|by apply (coherent_fields f st)].
  destruct (decide (data = [])) as [Ed|Ed].
  - rewrite Ed. simpl.
    destruct (pipeline_predict _ _); simpl;
      apply (coherent_fields f st); try reflexivity; exact Hc.
  - rewrite Hlib by (destruct data; [done|discriminate]). simpl.
    assert (Hdata : ∀ j, j ∈ data → j ∈ jobs st).
    { intros j Hj. apply list_elem_of_filter in Hj. tauto. }
    assert (Hfill := coherent_fill f
             (log (Execute (SelectFeaturesIn (d :: ds))) st) m data Em Hdata
             (coherent_fields f st _ eq_refl eq_refl eq_refl Hc)).
    exact Hfill.
Qed.

Lemma coherent_refresh f ids st :
  predicts_rowwise f → coherent f st → coherent f (refresh ids st).2.
Proof.
  intros Hlib Hc.
  destruct (after_read_fields st) as (Hm0 & Hc0 & Hj0 & _).
  assert (Hr : coherent f (after_read st)) by by apply (coherent_fields f st).
  assert (Htrain : ∀ s, coherent f s →
            coherent f (_predictAndCacheEverything (after_train s)).2).
  { intros s Hs. apply coherent_everything; [done|].
    destruct (after_train_fields s) as [Hj Hk].
    destruct (decide (training_frame s = [])) as [E|E].
    - left. rewrite after_train_noop by done.
      by apply (coherent_fields f s).
    - right. destruct (after_train_fit s E) as (-> & _).
      split; [|done]. rewrite Hj. by apply training_frame_nonempty_jobs. }
  apply refresh_paths.
  - intros _. by apply Htrain.
  - intros _ _ _. apply Htrain. by apply (coherent_fields f (after_read st)).
  - intros loaded _ Em _. apply coherent_everything; [done|]. left.
    intros id v Hv. simpl in Hv. rewrite Hc0 in Hv.
    by rewrite (coherent_no_model f st id Hc Em) in Hv.
  - intros _ _ _. by apply (coherent_fields f (after_read st)).
  - done.
  - intros fitted _ _ _. by apply coherent_dirty.
Qed.

(** X9: with a pipeline that predicts row by row, every public method,
    whether it returns or raises, keeps the cache coherent: each cached
    value is what the model now in memory predicts for a row of the table
    with that id.  A first run and a new object start coherent. *)
Theorem cache_stays_coherent f :
  predicts_rowwise f →
  (∀ table, coherent f (first_run table))
  ∧ (∀ st, coherent f st →
       (∀ ids, coherent f (predict ids st).2)
       ∧ (∀ x, coherent f (incrementDbChangeCounter x st).2)
       ∧ (∀ IDs, coherent f (markDirtyIDs IDs st).2)
       ∧ coherent f (reset st).2
       ∧ coherent f (__init__ st)).
Proof.
  intros Hlib. split; [intros table; by apply coherent_empty_cache|].
  intros st Hc. split; [|split; [|split; [|split]]].
  - intros [|i ids]; [exact Hc|].
    rewrite predict_state by done. by apply coherent_refresh.
  - intros x.
    destruct (incrementDbChangeCounter_fields x st) as (Hm & Hk & Hj & _).
    by apply (coherent_fields f st).
  - intros IDs id v Hv. rewrite markDirtyIDs_run in Hv.
    destruct (decide (id ∈ IDs)); [discriminate|]. exact (Hc id v Hv).
  - apply coherent_empty_cache. by destruct (reset_run st) as (_ & _ & -> & _).
  - by apply coherent_empty_cache.
Qed.

End Properties.

(** ** Properties of the tabs *)

Section TabProperties.
Context `{Libraries} `{PythonText}.

Ltac run :=
  unfold mbind, M_bind, mret, M_ret, emit, modify, gets, lift, raise; simpl.

(** *** How the handlers run *)

Lemma predict_keeps_table ids st : jobs (predict ids st).2 = jobs st.
Proof.
  destruct ids as [|i ids]; [reflexivity|].
  rewrite predict_state by done.
  destruct (after_read_fields st) as (_ & _ & Hj0 & _).
  assert (He : ∀ s, jobs (_predictAndCacheEverything s).2 = jobs s).
  { intros s. by destruct (everything_fields s) as (_ & ? & _). }
  apply (refresh_paths (λ s, jobs s = jobs st)).
  - intros _. rewrite He.
    destruct (after_train_fields (after_read st)) as [-> _]. done.
  - intros _ _ _. rewrite He.
    by destruct (after_train_fields
                   (log (PathExists modelPklFilepath) (after_read st)))
      as [-> _].
  - intros loaded _ _ _. by rewrite He.
  - done.
  - done.
  - intros fitted _ _ Hd.
    destruct (dirty_fields _ (after_read st) Hd) as (_ & -> & _). done.
Qed.

Lemma predict_adds_table_ids_only ids st x :
  predictionCache st !! x = None → x ∉ map job_id (jobs st) →
  predictionCache (predict ids st).2 !! x = None.
Proof.
  intros Hx Hs. destruct ids as [|i ids]; [exact Hx|].
  rewrite predict_state by done. by apply refresh_absent.
Qed.

Lemma predicted_column_Return r ids :
  (∀ id, id ∈ ids → is_Some (r !! id)) →
  ∃ shown, predicted_column r ids = Return shown
           ∧ map fst shown = ids
           ∧ (∀ id v, (id, v) ∈ shown → r !! id = Some v).
Proof.
  induction ids as [|id ids IH]; intros Hall; simpl.
  - exists []. split; [done|]. split; [done|].
    intros id v Hin. by apply elem_of_nil in Hin.
  - destruct (Hall id) as [p Hp]; [left|]. rewrite Hp.
    destruct IH as (shown & -> & Hids & Hval).
    { intros id' Hin. apply Hall. by right. }
    exists ((id, p) :: shown). split; [done|]. split; [simpl; by rewrite Hids|].
    intros id' v Hin. apply elem_of_cons in Hin as [[= -> ->]|Hin]; [done|].
    by apply Hval.
Qed.

(** [renderTable] returns exactly when [predict] does, with one value per
    selected row, the one the cache holds on return. *)
Lemma renderTable_run ids st :
  match predict ids st with
  | (Return r, st1) =>
      ∃ shown, renderTable ids st = (Return shown, st1)
               ∧ map fst shown = ids
               ∧ (∀ id v, (id, v) ∈ shown →
                    predictionCache st1 !! id = Some v)
  | (Raise e, st1) => renderTable ids st = (Raise e, st1)
  end.
Proof.
  unfold renderTable. unfold mbind, M_bind, lift.
  destruct (predict ids st) as [[r|e] st1] eqn:Hrun; [|reflexivity].
  assert (Hcol : collect (predictionCache st1) ids ∅ = Return r).
  { destruct ids as [|i ids].
    - by injection Hrun as <- <-.
    - by destruct (predict_Return (i :: ids) st r st1) as [_ Hc]. }
  pose proof (collect_all_cached _ _ _ _ Hcol) as Hall.
  destruct (collect_Return (predictionCache st1) ids ∅ Hall)
    as (r' & Hr' & _ & Hval).
  assert (r' = r) as -> by congruence.
  destruct (predicted_column_Return r ids) as (shown & -> & Hids & Hshown).
  { intros id Hin. rewrite Hval by done. by apply Hall. }
  exists shown. split; [done|]. split; [done|].
  intros id v Hin. rewrite <- Hval; [by apply Hshown|].
  rewrite <- Hids. apply list_elem_of_In, in_map_iff.
  exists (id, v). split; [done|]. by apply list_elem_of_In.
Qed.

Lemma renderTable_state ids st :
  (renderTable ids st).2 = (predict ids st).2.
Proof.
  pose proof (renderTable_run ids st) as Hrun.
  destruct (predict ids st) as [[r|e] st1].
  - by destruct Hrun as (shown & -> & _).
  - by rewrite Hrun.
Qed.

(** *** The invariants, handler by handler *)

Lemma update_job_id col v j : job_id (update_job col v j) = job_id j.
Proof. by destruct col, v. Qed.

Lemma update_job_features col v j :
  is_feature col = false →
  job_type (update_job col v j) = job_type j
  ∧ hours_worked (update_job col v j) = hours_worked j.
Proof. by destruct col, v. Qed.

Lemma elem_of_sql_update col v id table j :
  j ∈ table →
  (if bool_decide (job_id j = id) then update_job col v j else j)
  ∈ sql_update col v id table.
Proof.
  intros Hj. unfold sql_update. apply list_elem_of_In, in_map_iff.
  exists j. split; [done|]. by apply list_elem_of_In.
Qed.

Lemma coherent_predict f ids st :
  predicts_rowwise f → coherent f st → coherent f (predict ids st).2.
Proof.
  intros Hlib Hc. destruct ids as [|i ids]; [exact Hc|].
  rewrite predict_state by done. by apply coherent_refresh.
Qed.

Lemma in_sync_predict ids st : in_sync st → in_sync (predict ids st).2.
Proof.
  intros Hs. destruct ids as [|i ids]; [exact Hs|].
  rewrite predict_state by done. by apply in_sync_refresh.
Qed.

Lemma coherent_increment f x st :
  coherent f st → coherent f (incrementDbChangeCounter x st).2.
Proof.
  destruct (incrementDbChangeCounter_fields x st) as (Hm & Hk & Hj & _).
  by apply coherent_fields.
Qed.

Lemma in_sync_increment x st :
  in_sync st → in_sync (incrementDbChangeCounter x st).2.
Proof.
  destruct (incrementDbChangeCounter_fields x st) as (Hm & _ & _ & Hp).
  by apply in_sync_fields.
Qed.

(** What [sqlUpdateActions] leaves, by the outcome of the checks. *)
Lemma sqlUpdateActions_run col id text st :
  sqlUpdateActions col id text st
  = if bool_decide (id ∈ map job_id (jobs st)) then
      match check_edit col (str_strip text) with
      | Uncaught => (Raise ValueError, st)
      | Refused msg => (Return (Message msg), st)
      | Accepted v =>
          let st1 := set_jobs (sql_update col v id (jobs st)) st in
          let st2 := if is_feature_or_label col
                     then (incrementDbChangeCounter 1 st1).2 else st1 in
          let st3 := if is_feature col
                     then (markDirtyIDs [id] st2).2 else st2 in
          (Return Done, st3)
      end
    else (Return Terminated, st).
Proof.
  unfold sqlUpdateActions, mbind, M_bind, mret, M_ret, gets, modify.
  case_bool_decide; [|reflexivity].
  destruct (check_edit col (str_strip text)) as [v| |]; try reflexivity.
  cbv zeta.
  set (st1 := set_jobs (sql_update col v id (jobs st)) st).
  destruct (incrementDbChangeCounter_run 1 st1) as (Hr & _).
  destruct (incrementDbChangeCounter 1 st1) as [r1 s1] eqn:Hinc.
  simpl in Hr. subst r1.
  destruct (is_feature_or_label col), (is_feature col);
    cbv beta iota; rewrite ?Hinc; reflexivity.
Qed.

Lemma coherent_sqlUpdateActions f col id text st :
  coherent f st → coherent f (sqlUpdateActions col id text st).2.
Proof.
  intros Hc. rewrite sqlUpdateActions_run.
  case_bool_decide; [|exact Hc].
  destruct (check_edit col (str_strip text)) as [v| |]; try exact Hc.
  cbv zeta.
  match goal with |- coherent _ (_, ?s).2 => change (coherent f s) end.
  set (st1 := set_jobs (sql_update col v id (jobs st)) st).
  set (st2 := if is_feature_or_label col
              then (incrementDbChangeCounter 1 st1).2 else st1).
  assert (H2 : model st2 = model st ∧ predictionCache st2 = predictionCache st
               ∧ jobs st2 = sql_update col v id (jobs st)).
  { unfold st2. destruct (is_feature_or_label col); [|done].
    by destruct (incrementDbChangeCounter_fields 1 st1) as (? & ? & ? & _). }
  destruct H2 as (Hm2 & Hk2 & Hj2).
  intros k val Hk.
  assert (Hold : predictionCache st !! k = Some val
                 ∧ (is_feature col = true → k ≠ id)).
  { destruct (is_feature col); simpl in Hk.
    - destruct (decide (k = id)) as [->|Hne].
      + by rewrite lookup_delete_eq in Hk.
      + rewrite lookup_delete_ne in Hk by done. split; [congruence|done].
    - split; [congruence|discriminate]. }
  destruct Hold as [Hold Hne].
  destruct (Hc k val Hold) as (m & j & Hm & Hj & Hid & Hval).
  exists m, (if bool_decide (job_id j = id) then update_job col v j else j).
  assert (Hfields : model (if is_feature col then (markDirtyIDs [id] st2).2
                           else st2) = model st
                    ∧ jobs (if is_feature col then (markDirtyIDs [id] st2).2
                            else st2) = sql_update col v id (jobs st)).
  { destruct (is_feature col); simpl; auto. }
  destruct Hfields as [-> ->].
  split; [done|]. split; [by apply elem_of_sql_update|].
  case_bool_decide as Eid; [|done].
  rewrite update_job_id. split; [done|].
  destruct (is_feature col) eqn:Ef; [destruct (Hne eq_refl); congruence|].
  by destruct (update_job_features col v j Ef) as [-> ->].
Qed.

Lemma in_sync_sqlUpdateActions col id text st :
  in_sync st → in_sync (sqlUpdateActions col id text st).2.
Proof.
  intros Hs. rewrite sqlUpdateActions_run.
  case_bool_decide; [|exact Hs].
  destruct (check_edit col (str_strip text)) as [v| |]; try exact Hs.
  cbv zeta.
  match goal with |- in_sync (_, ?s).2 => change (in_sync s) end.
  apply (in_sync_fields st); [| |exact Hs];
    destruct (is_feature col), (is_feature_or_label col); simpl;
    try reflexivity;
    by destruct (incrementDbChangeCounter_fields 1
                   (set_jobs (sql_update col v id (jobs st)) st))
      as (? & _ & _ & ?).
Qed.

(** The state the other handlers leave. *)
Lemma sqlInsertActions_state submitted shown st :
  (sqlInsertActions submitted shown st).2
  = match submitted with
    | None => st
    | Some j =>
        (predict shown
           (incrementDbChangeCounter 1 (set_jobs (jobs st ++ [j]) st)).2).2
    end.
Proof.
  destruct submitted as [j|]; [|reflexivity].
  unfold sqlInsertActions, mbind, M_bind, mret, M_ret, modify.
  set (st1 := set_jobs (jobs st ++ [j]) st).
  destruct (incrementDbChangeCounter_run 1 st1) as (Hr & _).
  destruct (incrementDbChangeCounter 1 st1) as [r1 s1].
  simpl in Hr. subst r1. cbv beta iota.
  change (Return (), s1).2 with s1.
  rewrite <- renderTable_state.
  by destruct (renderTable shown s1) as [[?|?] ?].
Qed.

Lemma sqlDeleteActions_state selectedIDs confirmed shown st :
  (sqlDeleteActions selectedIDs confirmed shown st).2
  = if bool_decide (length selectedIDs = 0%nat) then st
    else if confirmed then
      (predict shown
         (incrementDbChangeCounter (Z.of_nat (length selectedIDs))
            (markDirtyIDs selectedIDs
               (set_jobs (filter (λ j, job_id j ∉ selectedIDs) (jobs st)) st)).2).2).2
    else st.
Proof.
  unfold sqlDeleteActions.
  case_bool_decide; [reflexivity|].
  destruct confirmed; [|reflexivity].
  unfold mbind, M_bind, mret, M_ret, modify.
  set (st1 := set_jobs (filter (λ j, job_id j ∉ selectedIDs) (jobs st)) st).
  destruct (markDirtyIDs selectedIDs st1) as [r2 s2] eqn:E2.
  assert (r2 = Return tt) as -> by (unfold markDirtyIDs, modify in E2; congruence).
  cbv beta iota. change (Return (), s2).2 with s2.
  destruct (incrementDbChangeCounter_run (Z.of_nat (length selectedIDs)) s2)
    as (Hr & _).
  destruct (incrementDbChangeCounter _ s2) as [r3 s3].
  simpl in Hr. subst r3. cbv beta iota.
  change (Return (), s3).2 with s3.
  rewrite <- renderTable_state.
  by destruct (renderTable shown s3) as [[?|?] ?].
Qed.

Lemma handleClearDb_run confirmed st :
  handleClearDb confirmed st
  = if bool_decide (length (jobs st) = 0%nat)
    then (Return (Message "Database is already empty!!!"), st)
    else if confirmed then (Return Done, (reset (set_jobs [] st)).2)
    else (Return Done, st).
Proof.
  unfold handleClearDb, mbind, M_bind, mret, M_ret, modify, gets.
  case_bool_decide; [reflexivity|].
  destruct confirmed; [|reflexivity].
  destruct (reset_run (set_jobs [] st)) as (Hr & _).
  destruct (reset (set_jobs [] st)) as [r1 s1].
  simpl in Hr. by subst r1.
Qed.

Lemma handleAppendFromCsv_run chosen st :
  handleAppendFromCsv chosen st
  = (Return match chosen with
            | NoFile | CsvRows _ => Done
            | ReadError e => Message (read_error_message e)
            | WrongHeader => Message header_error_message
            end,
     match chosen with
     | CsvRows rows => set_jobs (jobs st ++ rows) st
     | _ => st
     end).
Proof. by destruct chosen. Qed.

Lemma coherent_more_rows f table st :
  (∀ j, j ∈ jobs st → j ∈ table) →
  coherent f st → coherent f (set_jobs table st).
Proof.
  intros Hsub Hc k v Hk. destruct (Hc k v Hk) as (m & j & Hm & Hj & Hid & Hv).
  exists m, j. simpl. auto.
Qed.

Lemma coherent_delete f selectedIDs st :
  coherent f st →
  coherent f
    (markDirtyIDs selectedIDs
       (set_jobs (filter (λ j, job_id j ∉ selectedIDs) (jobs st)) st)).2.
Proof.
  intros Hc k v Hk. rewrite markDirtyIDs_run in Hk.
  destruct (decide (k ∈ selectedIDs)) as [|Hout]; [discriminate|].
  destruct (Hc k v Hk) as (m & j & Hm & Hj & Hid & Hv).
  exists m, j. simpl. repeat split; try done.
  apply list_elem_of_filter. split; [by rewrite Hid|done].
Qed.

Lemma coherent_init f st : coherent f (__init__ st).
Proof. by apply coherent_empty_cache. Qed.

Lemma in_sync_init st : in_sync st → in_sync (__init__ st).
Proof.
  intros [_ Hp]. split; [|exact Hp]. simpl. discriminate.
Qed.

Lemma in_sync_first_run table : in_sync (first_run table).
Proof. split; simpl; discriminate. Qed.

(** Each action of the user, and a restart, keeps both invariants. *)
Lemma app_step_invariant f st st' :
  predicts_rowwise f → app_step st st' →
  coherent f st ∧ in_sync st → coherent f st' ∧ in_sync st'.
Proof.
  intros Hlib Hstep [Hc Hs].
  destruct Hstep as [ids st|col id text st|submitted shown st
                    |selectedIDs confirmed shown st|confirmed st|chosen st|st].
  - rewrite renderTable_state.
    split; [by apply coherent_predict|by apply in_sync_predict].
  - split; [by apply coherent_sqlUpdateActions|by apply in_sync_sqlUpdateActions].
  - rewrite sqlInsertActions_state. destruct submitted as [j|]; [|done].
    split.
    + apply coherent_predict, coherent_increment, coherent_more_rows; try done.
      intros j' Hj'. apply elem_of_app. by left.
    + apply in_sync_predict, in_sync_increment.
      by apply (in_sync_fields st).
  - rewrite sqlDeleteActions_state.
    case_bool_decide; [done|]. destruct confirmed; [|done].
    split.
    + by apply coherent_predict, coherent_increment, coherent_delete.
    + apply in_sync_predict, in_sync_increment.
      by apply (in_sync_fields st).
  - rewrite handleClearDb_run.
    case_bool_decide; [done|]. destruct confirmed; [|done].
    destruct (reset_run (set_jobs [] st)) as (_ & Hm & Hk & _ & Hp & _).
    split; [by apply coherent_empty_cache|].
    split; [simpl; rewrite Hm; discriminate|simpl; rewrite Hp; discriminate].
  - rewrite handleAppendFromCsv_run. destruct chosen as [|e| |rows]; try done.
    split.
    + apply coherent_more_rows; [|done].
      intros j' Hj'. apply elem_of_app. by left.
    + by apply (in_sync_fields st).
  - split; [apply coherent_init|by apply in_sync_init].
Qed.

Lemma reachable_invariant f st :
  predicts_rowwise f → reachable st → coherent f st ∧ in_sync st.
Proof.
  intros Hlib Hr. induction Hr as [table|st st' _ IH Hstep].
  - split; [by apply coherent_empty_cache|apply in_sync_first_run].
  - by apply (app_step_invariant f st st').
Qed.

(** *** The reachable states *)

(** X10: in every state the program can reach from a first run, by
    rendering the table, editing a cell, inserting, deleting, clearing,
    appending from a file and restarting, in any order and whether a handler
    returns or raises, each cached prediction is what the model now in
    memory predicts for a row that is in the table now; so no cached id is
    without a row, and no prediction is cached without a model.  The model
    in memory is the one model.pkl holds. *)
Theorem reachable_cache_is_current f st :
  predicts_rowwise f → reachable st →
  coherent f st
  ∧ in_sync st
  ∧ (∀ id, is_Some (predictionCache st !! id) → id ∈ map job_id (jobs st))
  ∧ (model st = None → predictionCache st = ∅).
Proof.
  intros Hlib Hr. destruct (reachable_invariant f st Hlib Hr) as [Hc Hs].
  split; [exact Hc|]. split; [exact Hs|]. split.
  - intros id [v Hv]. destruct (Hc id v Hv) as (m & j & _ & Hj & Hid & _).
    subst id. apply list_elem_of_In, in_map, list_elem_of_In, Hj.
  - intros Hm. apply map_eq. intros id. rewrite lookup_empty.
    by apply (coherent_no_model f).
Qed.

(** X11: when [renderTable] returns, the column "Predicted Pay" has one
    value per selected row, in the order of the selection, and each value
    is what the model in memory at that moment predicts for the row of the
    table with that id. *)
Theorem renderTable_shows_current_predictions f ids st shown st1 :
  predicts_rowwise f → coherent f st →
  renderTable ids st = (Return shown, st1) →
  map fst shown = ids
  ∧ jobs st1 = jobs st
  ∧ (∀ id v, (id, v) ∈ shown →
       ∃ m j, model st1 = Some m ∧ j ∈ jobs st ∧ job_id j = id
              ∧ v = np_exp (f m (job_type j, hours_worked j))).
Proof.
  intros Hlib Hc Hrun.
  pose proof (renderTable_run ids st) as Hr.
  pose proof (predict_keeps_table ids st) as Hk.
  pose proof (coherent_predict f ids st Hlib Hc) as Hc'.
  destruct (predict ids st) as [[r|e] st2]; simpl in Hk, Hc'.
  - destruct Hr as (shown' & Hrun' & Hids & Hval).
    rewrite Hrun in Hrun'. injection Hrun' as -> ->.
    split; [exact Hids|]. split; [exact Hk|].
    intros id v Hin.
    destruct (Hc' id v (Hval id v Hin)) as (m & j & Hm & Hj & Hid & Hv).
    exists m, j. by rewrite <- Hk.
  - rewrite Hrun in Hr. discriminate Hr.
Qed.

(** *** Editing a cell *)

Lemma elem_of_sql_update_inv col v id table j :
  j ∈ sql_update col v id table →
  ∃ j0, j0 ∈ table
        ∧ j = if bool_decide (job_id j0 = id) then update_job col v j0 else j0.
Proof.
  intros Hj. apply list_elem_of_In, in_map_iff in Hj.
  destruct Hj as (j0 & Hj & Hin). exists j0.
  split; [by apply list_elem_of_In|done].
Qed.

Lemma sqlUpdateActions_Done col id text st st' :
  sqlUpdateActions col id text st = (Return Done, st') →
  ∃ v, id ∈ map job_id (jobs st)
       ∧ check_edit col (str_strip text) = Accepted v
       ∧ jobs st' = sql_update col v id (jobs st)
       ∧ model st' = model st
       ∧ modelPklFile st' = modelPklFile st
       ∧ predictionCache st'
         = (if is_feature col then delete id (predictionCache st)
            else predictionCache st)
       ∧ modelConfigFile st'
         = (if is_feature_or_label col
            then Some {| dbChangeCounter := dbChangeCounter (current_config st) + 1;
                         lastTrainedRowCount := lastTrainedRowCount (current_config st) |}
            else modelConfigFile st).
Proof.
  rewrite sqlUpdateActions_run. case_bool_decide as Hin; [|discriminate].
  destruct (check_edit col (str_strip text)) as [v| |]; try discriminate.
  cbv zeta. intros Hrun. injection Hrun as <-.
  exists v. split; [exact Hin|]. split; [reflexivity|].
  set (st1 := set_jobs (sql_update col v id (jobs st)) st).
  destruct (incrementDbChangeCounter_fields 1 st1) as (Hm & Hk & Hj & Hp).
  destruct (incrementDbChangeCounter_run 1 st1) as (_ & Hc & _).
  destruct (is_feature_or_label col), (is_feature col); simpl;
    rewrite ?Hm, ?Hk, ?Hj, ?Hp, ?Hc; auto 10.
Qed.

Lemma check_edit_Accepted col s v :
  check_edit col s = Accepted v →
  match col, v with
  | job_date_column, NewText d => reformat_date s = Some d
  | job_name_column, NewText t => t = s ∧ s ≠ ""
  | job_type_column, NewText t => t = s ∧ s ≠ ""
  | hours_worked_column, NewNumber h =>
      PrimFloat.ltb h 0 = false ∧ PrimFloat.ltb 24 h = false
  | pay_column, NewNumber p => PrimFloat.ltb p 0 = false
  | pay_column, NewNull => True
  | _, _ => False
  end.
Proof.
  destruct col; simpl.
  - destruct (reformat_date s); [|discriminate]. by intros [= <-].
  - destruct (String.eqb s "") eqn:E; [discriminate|]. intros [= <-].
    split; [done|]. intros ->. discriminate E.
  - destruct (String.eqb s "") eqn:E; [discriminate|]. intros [= <-].
    split; [done|]. intros ->. discriminate E.
  - destruct (String.eqb s ""); [discriminate|].
    destruct (float_of_str _) as [h|]; [|discriminate].
    destruct (PrimFloat.ltb h 0) eqn:E1; [discriminate|].
    destruct (PrimFloat.ltb 24 h) eqn:E2; [discriminate|].
    simpl. by intros [= <-].
  - destruct (String.eqb _ ""); [by intros [= <-]|].
    destruct (float_of_str _) as [p|]; [|discriminate].
    destruct (PrimFloat.ltb p 0) eqn:E1; [discriminate|].
    by intros [= <-].
Qed.

(** X12: [sqlUpdateActions] changes the state only when it goes through:
    when it shows a message, ends the process or lets the [ValueError] of
    the date out, the table, the cache and the files are as before.  When
    it goes through, the cell had a row, and the row with that id now holds
    a job type that is the stripped text and not empty, hours that are
    neither below 0 nor above 24, or a pay that is NULL or not below 0. *)
Theorem sqlUpdateActions_stores_checked_values col id text st :
  ((sqlUpdateActions col id text st).1 ≠ Return Done →
   (sqlUpdateActions col id text st).2 = st)
  ∧ (∀ st',
       sqlUpdateActions col id text st = (Return Done, st') →
       id ∈ map job_id (jobs st)
       ∧ ∀ j, j ∈ jobs st' → job_id j = id →
           match col with
           | job_type_column =>
               job_type j = str_strip text ∧ job_type j ≠ ""
           | hours_worked_column =>
               PrimFloat.ltb (hours_worked j) 0 = false
               ∧ PrimFloat.ltb 24 (hours_worked j) = false
           | pay_column =>
               ∀ p, pay j = Some p → PrimFloat.ltb p 0 = false
           | _ => True
           end).
Proof.
  split.
  - rewrite sqlUpdateActions_run. case_bool_decide; [|done].
    by destruct (check_edit col (str_strip text)).
  - intros st' Hrun.
    destruct (sqlUpdateActions_Done _ _ _ _ _ Hrun)
      as (v & Hin & Hcheck & Hjobs & _).
    split; [exact Hin|]. intros j Hj Hid. rewrite Hjobs in Hj.
    destruct (elem_of_sql_update_inv _ _ _ _ _ Hj) as (j0 & _ & ->).
    case_bool_decide as E; [|done].
    apply check_edit_Accepted in Hcheck.
    destruct col, v; simpl; try done.
    + destruct Hcheck as [-> Hne]. done.
    + intros p [= <-]. exact Hcheck.
Qed.

(** X13: an edit that goes through tells the model what the source says
    it does: a change of job type or hours adds 1 to the change counter and
    drops the cached prediction of that row and of no other; a change of
    pay adds 1 and keeps every cached prediction; a change of date or name
    does neither.  The model and model.pkl are untouched, and so is every
    row with another id. *)
Theorem sqlUpdateActions_tells_the_model col id text st st' :
  sqlUpdateActions col id text st = (Return Done, st') →
  predictionCache st'
  = (if is_feature col then delete id (predictionCache st)
     else predictionCache st)
  ∧ current_config st'
    = (if is_feature_or_label col
       then {| dbChangeCounter := dbChangeCounter (current_config st) + 1;
               lastTrainedRowCount := lastTrainedRowCount (current_config st) |}
       else current_config st)
  ∧ model st' = model st
  ∧ modelPklFile st' = modelPklFile st
  ∧ map job_id (jobs st') = map job_id (jobs st)
  ∧ (∀ j, job_id j ≠ id → j ∈ jobs st' ↔ j ∈ jobs st).
Proof.
  intros Hrun.
  destruct (sqlUpdateActions_Done _ _ _ _ _ Hrun)
    as (v & Hin & Hcheck & Hjobs & Hm & Hp & Hk & Hc).
  split; [exact Hk|]. split.
  { unfold current_config at 1. rewrite Hc.
    by destruct (is_feature_or_label col). }
  split; [exact Hm|]. split; [exact Hp|]. rewrite Hjobs. split.
  - unfold sql_update. rewrite map_map. apply map_ext. intros j.
    case_bool_decide; [apply update_job_id|done].
  - intros j Hne. split.
    + intros Hj. destruct (elem_of_sql_update_inv _ _ _ _ _ Hj) as (j0 & Hj0 & ->).
      case_bool_decide as E; [|done].
      rewrite update_job_id in Hne. done.
    + intros Hj. pose proof (elem_of_sql_update col v id _ _ Hj) as Hj'.
      by rewrite bool_decide_eq_false_2 in Hj'.
Qed.

(** *** Deleting rows *)

(** X14: [sqlDeleteActions] on an empty selection raises [IndexError]
    while it builds the question, and a refused question ends it; the state
    is untouched in both cases.  Once confirmed, the table loses exactly
    the rows with a selected id, and when the handler ends, returning or
    raising out of the re-rendering, no deleted id has a cache entry,
    whichever rows are rendered. *)
Theorem sqlDeleteActions_forgets_deleted_rows selectedIDs shown st :
  (selectedIDs = [] →
   ∀ confirmed,
     sqlDeleteActions selectedIDs confirmed shown st = (Raise IndexError, st))
  ∧ (selectedIDs ≠ [] →
     sqlDeleteActions selectedIDs false shown st = (Return Done, st)
     ∧ let st' := (sqlDeleteActions selectedIDs true shown st).2 in
       jobs st' = filter (λ j, job_id j ∉ selectedIDs) (jobs st)
       ∧ (∀ id, id ∈ selectedIDs → predictionCache st' !! id = None)
       ∧ (∀ id, id ∈ selectedIDs → id ∉ map job_id (jobs st'))).
Proof.
  split.
  - intros -> confirmed. reflexivity.
  - intros Hne.
    assert (Hlen : length selectedIDs ≠ 0%nat) by by destruct selectedIDs.
    split.
    { unfold sqlDeleteActions. by rewrite bool_decide_eq_false_2. }
    cbv zeta. rewrite sqlDeleteActions_state.
    rewrite bool_decide_eq_false_2 by done.
    set (st1 := set_jobs (filter (λ j, job_id j ∉ selectedIDs) (jobs st)) st).
    set (st2 := (markDirtyIDs selectedIDs st1).2).
    set (n := Z.of_nat (length selectedIDs)).
    destruct (incrementDbChangeCounter_fields n st2) as (_ & Hk & Hj & _).
    assert (Hjobs : jobs (incrementDbChangeCounter n st2).2
                    = filter (λ j, job_id j ∉ selectedIDs) (jobs st))
      by (rewrite Hj; reflexivity).
    assert (Hgone : ∀ id, id ∈ selectedIDs →
              id ∉ map job_id (filter (λ j, job_id j ∉ selectedIDs) (jobs st))).
    { intros id Hid Hin. apply list_elem_of_In, in_map_iff in Hin.
      destruct Hin as (j & <- & Hin).
      apply list_elem_of_In, list_elem_of_filter in Hin. by destruct Hin. }
    rewrite predict_keeps_table, Hjobs.
    split; [reflexivity|]. split; [|exact Hgone].
    intros id Hid. apply predict_adds_table_ids_only.
    + rewrite Hk. unfold st2. rewrite markDirtyIDs_run.
      by rewrite decide_True.
    + rewrite Hjobs. by apply Hgone.
Qed.

(** *** Clearing the table *)

(** X15: [handleClearDb] on an empty table only shows its message, and a
    refused question ends it, both without touching the state.  Once
    confirmed on a table with rows, it leaves the program as a first run
    over an empty table finds it: no rows, no model, no cached prediction
    and neither file; every later [predict] then gives what it gives on such
    a first run, and rendering the empty table shows nothing and asks the
    model for nothing. *)
Theorem handleClearDb_starts_over confirmed st :
  (jobs st = [] →
   handleClearDb confirmed st
   = (Return (Message "Database is already empty!!!"), st))
  ∧ (jobs st ≠ [] → confirmed = false →
     handleClearDb confirmed st = (Return Done, st))
  ∧ (jobs st ≠ [] → confirmed = true →
     ∃ st',
       handleClearDb confirmed st = (Return Done, st')
       ∧ same_memory st' (first_run [])
       ∧ renderTable [] st' = (Return [], st')
       ∧ (∀ ids, (predict ids st').1 = (predict ids (first_run [])).1)).
Proof.
  rewrite handleClearDb_run. split; [|split].
  - intros ->. reflexivity.
  - intros Hne ->. rewrite bool_decide_eq_false_2; [done|].
    by destruct (jobs st).
  - intros Hne ->. rewrite bool_decide_eq_false_2 by by destruct (jobs st).
    eexists. split; [reflexivity|].
    destruct (reset_run (set_jobs [] st)) as (_ & Hm & Hk & Hc & Hp & Hj).
    assert (Hsame : same_memory (reset (set_jobs [] st)).2 (first_run []))
      by (unfold same_memory; rewrite Hm, Hk, Hc, Hp, Hj; done).
    split; [exact Hsame|]. split; [reflexivity|].
    intros ids. by apply same_memory_predict.
Qed.

(** *** Appending from a file *)

(** X16: [handleAppendFromCsv] ends without a message when the dialog is
    cancelled and when the rows are in, and with the message of [error]
    when the file cannot be read or has other columns; only rows that were
    read are added, at the end of the table.  In every case it tells the
    model nothing: the change counter, the cache, the model and both files
    are as before and no method of the class is called.  So the rows it
    appends, however many, never make the next [predict] retrain: it
    retrains exactly when it would have without them. *)
Theorem handleAppendFromCsv_is_not_counted chosen st :
  let st' := (handleAppendFromCsv chosen st).2 in
  (handleAppendFromCsv chosen st).1
  = Return match chosen with
           | NoFile | CsvRows _ => Done
           | ReadError e => Message (read_error_message e)
           | WrongHeader => Message header_error_message
           end
  ∧ jobs st' = jobs st ++ match chosen with CsvRows rows => rows | _ => [] end
  ∧ model st' = model st
  ∧ predictionCache st' = predictionCache st
  ∧ modelConfigFile st' = modelConfigFile st
  ∧ modelPklFile st' = modelPklFile st
  ∧ trace st' = trace st
  ∧ (∀ ids, ids ≠ [] → retrains ids st' ↔ retrains ids st).
Proof.
  cbv zeta. rewrite handleAppendFromCsv_run.
  assert (Hs : ∀ st', modelConfigFile st' = modelConfigFile st →
                      shouldRetrain st' = shouldRetrain st)
    by (intros st' E; unfold shouldRetrain, current_config; by rewrite E).
  assert (Hiff : ∀ st', modelConfigFile st' = modelConfigFile st →
            ∀ ids, ids ≠ [] → retrains ids st' ↔ retrains ids st).
  { intros st' E ids Hne. specialize (Hs st' E).
    destruct (shouldRetrain st) eqn:Es.
    - split; intros _; by apply retrains_of_shouldRetrain.
    - split; intros Hr; exfalso;
        [by apply (not_retrains ids st')|by apply (not_retrains ids st)]. }
  destruct chosen as [|e| |rows]; simpl; rewrite ?app_nil_r;
    repeat split; try done; by apply Hiff.
Qed.

(** *** The insert dialog *)

(** X17: when [handleSubmit] accepts, the name and the type are not empty
    and [getValuesAsTuple] gets past the hours: it returns the date, name
    and type as entered, hours that are not above 24, and as pay NULL
    exactly when nothing but "$", " " and "," was entered; or it raises
    [ValueError], and then on the pay, which is not empty once cleaned and
    is not a number. *)
Theorem accepted_dialog_gives_checked_row date jobName jobType hoursWorked pay :
  handleSubmit jobName jobType hoursWorked = Return Done →
  let cleaned :=
    remove_char ","%char (remove_char " "%char (remove_char "$"%char pay)) in
  jobName ≠ "" ∧ jobType ≠ ""
  ∧ match getValuesAsTuple date jobName jobType hoursWorked pay with
    | Return (d, n, t, h, p) =>
        d = date ∧ n = jobName ∧ t = jobType
        ∧ PrimFloat.ltb 24 h = false
        ∧ (p = None ↔ cleaned = "")
    | Raise e =>
        e = ValueError ∧ cleaned ≠ ""
        ∧ float_of_str (if String.eqb cleaned "." then "0" else cleaned) = None
    end.
Proof.
  unfold handleSubmit, getValuesAsTuple. cbv zeta.
  destruct (String.eqb jobName "") eqn:En; [discriminate|].
  destruct (String.eqb jobType "") eqn:Et; [discriminate|].
  destruct (String.eqb hoursWorked "") eqn:Eh; [discriminate|].
  intros Hok.
  split; [intros ->; discriminate En|]. split; [intros ->; discriminate Et|].
  set (cleaned := remove_char ","%char
                    (remove_char " "%char (remove_char "$"%char pay))).
  assert (Hh : ∃ h, (if String.eqb hoursWorked "." then Some 0%float
                     else float_of_str hoursWorked) = Some h
                    ∧ PrimFloat.ltb 24 h = false).
  { destruct (String.eqb hoursWorked ".").
    - exists 0%float. split; reflexivity.
    - destruct (float_of_str hoursWorked) as [h|]; [|discriminate].
      exists h. split; [reflexivity|].
      by destruct (PrimFloat.ltb 24 h). }
  destruct Hh as (h & -> & Hh).
  destruct (String.eqb cleaned ".") eqn:Edot.
  - apply String.eqb_eq in Edot. simpl.
    destruct (float_of_str "0") as [p|] eqn:Ep;
      repeat split; try done; rewrite Edot; discriminate.
  - destruct (String.eqb cleaned "") eqn:Eempty.
    + apply String.eqb_eq in Eempty. repeat split; done.
    + destruct (float_of_str cleaned) as [p|] eqn:Ep.
      * repeat split; try done. intros E. rewrite E in Eempty. discriminate.
      * repeat split; try done. intros E. rewrite E in Eempty. discriminate.
Qed.

(** *** Inserting a row *)

Lemma sqlInsertActions_run j shown st :
  sqlInsertActions (Some j) shown st
  = match renderTable shown
            (incrementDbChangeCounter 1 (set_jobs (jobs st ++ [j]) st)).2 with
    | (Return _, st') => (Return Done, st')
    | (Raise e, st') => (Raise e, st')
    end.
Proof.
  unfold sqlInsertActions, mbind, M_bind, mret, M_ret, modify.
  set (st1 := set_jobs (jobs st ++ [j]) st).
  destruct (incrementDbChangeCounter_run 1 st1) as (Hr & _).
  destruct (incrementDbChangeCounter 1 st1) as [r1 s1].
  simpl in Hr. subst r1. cbv beta iota.
  change (Return (), s1).2 with s1.
  by destruct (renderTable shown s1) as [[?|?] ?].
Qed.


(** *** A table without a pay *)

Lemma training_frame_without_pay st :
  (∀ j, j ∈ jobs st → pay j = None) → training_frame st = [].
Proof.
  intros Hpay. unfold training_frame, preprocess, fetch_features_and_pay.
  assert (E : dropna_pay
                (map (λ j, ((job_type j, hours_worked j), pay j)) (jobs st))
              = []).
  { induction (jobs st) as [|j table IH]; [reflexivity|].
    unfold dropna_pay in *. simpl.
    rewrite (Hpay j) by left. simpl. apply IH.
    intros j' Hj'. apply Hpay. by right. }
  rewrite E. reflexivity.
Qed.

Lemma predict_without_pay ids st :
  ids ≠ [] → jobs st ≠ [] → (∀ j, j ∈ jobs st → pay j = None) →
  model st = None → modelPklFile st = None →
  (predict ids st).1 = Raise AttributeError
  ∧ jobs (predict ids st).2 = jobs st
  ∧ model (predict ids st).2 = None
  ∧ modelPklFile (predict ids st).2 = None
  ∧ predictionCache (predict ids st).2 = predictionCache st.
Proof.
  intros Hids Hjobs Hpay Hm Hp.
  rewrite predict_without_model_raises; try done.
  - destruct (after_read_fields st) as (Hm' & Hk' & Hj' & Hp' & _).
    destruct (shouldRetrain st); simpl; rewrite ?Hm', ?Hk', ?Hj', ?Hp'; auto.
  - split; [by apply training_frame_without_pay|]. by right.
Qed.

(** X19: while no job in the table has a pay and no model is in memory or
    in model.pkl, the table cannot be rendered: [renderTable] over any rows
    raises [AttributeError] and leaves the table without a model as before,
    so it raises again the next time and after a restart; and inserting a
    job without pay into such a table, or into an empty one, stores the row
    and then raises the same out of the handler. *)
Theorem table_without_pay_cannot_be_rendered ids st :
  ids ≠ [] → (∀ j, j ∈ jobs st → pay j = None) →
  model st = None → modelPklFile st = None →
  (jobs st ≠ [] →
   (renderTable ids st).1 = Raise AttributeError
   ∧ (renderTable ids (renderTable ids st).2).1 = Raise AttributeError
   ∧ (renderTable ids (__init__ (renderTable ids st).2)).1
     = Raise AttributeError)
  ∧ (∀ j, pay j = None →
       (sqlInsertActions (Some j) ids st).1 = Raise AttributeError
       ∧ jobs (sqlInsertActions (Some j) ids st).2 = jobs st ++ [j]).
Proof.
  intros Hids Hpay Hm Hp.
  assert (Hrender : ∀ s,
            jobs s ≠ [] → (∀ j, j ∈ jobs s → pay j = None) →
            model s = None → modelPklFile s = None →
            (renderTable ids s).1 = Raise AttributeError
            ∧ jobs (renderTable ids s).2 = jobs s
            ∧ model (renderTable ids s).2 = None
            ∧ modelPklFile (renderTable ids s).2 = None).
  { intros s Hj1 Hpay1 Hm1 Hp1.
    destruct (predict_without_pay ids s Hids Hj1 Hpay1 Hm1 Hp1)
      as (Hr & Hj & Hm' & Hp' & _).
    rewrite renderTable_state.
    pose proof (renderTable_run ids s) as Hrun.
    destruct (predict ids s) as [[r|e] s1]; simpl in Hr; [discriminate|].
    injection Hr as ->. rewrite Hrun. auto. }
  split.
  - intros Hjobs.
    destruct (Hrender st Hjobs Hpay Hm Hp) as (Hr & Hj & Hm' & Hp').
    split; [exact Hr|]. split.
    + apply Hrender; rewrite ?Hj; done.
    + apply Hrender; simpl; rewrite ?Hj; done.
  - intros j Hj.
    set (st1 := (incrementDbChangeCounter 1 (set_jobs (jobs st ++ [j]) st)).2).
    assert (H1 : jobs st1 = jobs st ++ [j] ∧ model st1 = None
                 ∧ modelPklFile st1 = None).
    { unfold st1.
      destruct (incrementDbChangeCounter_fields 1
                  (set_jobs (jobs st ++ [j]) st)) as (-> & _ & -> & ->).
      done. }
    destruct H1 as (Hj1 & Hm1 & Hp1).
    destruct (Hrender st1) as (Hr & Hjr & _); try done.
    { rewrite Hj1. by destruct (jobs st). }
    { intros j' Hj'. rewrite Hj1 in Hj'.
      apply elem_of_app in Hj' as [Hold|Hnew]; [by apply Hpay|].
      apply list_elem_of_singleton in Hnew. by subst j'. }
    rewrite sqlInsertActions_run. fold st1.
    destruct (renderTable ids st1) as [[r|e] s2]; simpl in Hr, Hjr;
      [discriminate|].
    injection Hr as ->. simpl. by rewrite Hjr, Hj1.
Qed.

End TabProperties.

(** ** The properties on the sample states *)

Lemma sample_predict_total : @predict_total Sample.lib.
Proof.
  intros m X HX. destruct X as [|x X]; [done|].
  eexists. split; [reflexivity|]. simpl. by rewrite length_map.
Qed.

(** With 3 changes on 10 rows [predict] retrains; with 19 on 100 it does
    not. *)
Lemma retrain_decision_witness :
  retrains [1] Sample.drifted
  ∧ ¬ retrains [1] Sample.nineteen
  ∧ Execute SelectFeaturesAndPay
    ∉ events_since Sample.nineteen (predict [1] Sample.nineteen).2.
Proof.
  destruct (@retrain_decision Sample.lib)
    as (_ & _ & Hiff & Hquiet & Hnineteen & _).
  split; [|split].
  - apply (Hiff [1] Sample.drifted); [discriminate|reflexivity].
  - apply (Hnineteen [1] Sample.nineteen). reflexivity.
  - apply (Hquiet [1] Sample.nineteen); [reflexivity|].
    left. discriminate.
Defined.

(** A retrain over two paid jobs persists a counter of 0 and 2 rows. *)
Lemma full_retrain_path_witness :
  shouldRetrain Sample.drifted = true
  ∧ training_frame Sample.drifted ≠ []
  ∧ modelConfigFile (predict [1] Sample.drifted).2
    = Some {| dbChangeCounter := 0; lastTrainedRowCount := 2 |}
  ∧ dom (predictionCache (predict [1] Sample.drifted).2) = {[ 1; 2 ]}.
Proof.
  assert (Hs : shouldRetrain Sample.drifted = true) by reflexivity.
  assert (Hf : training_frame Sample.drifted ≠ []) by discriminate.
  destruct (full_retrain_path [1] Sample.drifted sample_predict_total
              ltac:(discriminate) Hs Hf)
    as (ys & _ & _ & _ & _ & Hc & Hdom & _).
  split; [exact Hs|]. split; [exact Hf|]. split; [exact Hc|].
  rewrite Hdom. simpl. set_solver.
Defined.

(** Training over one unpaid job changes nothing. *)
Lemma train_without_rows_witness :
  training_frame Sample.unpaid = []
  ∧ ∃ st', _train Sample.unpaid = (Return tt, st')
           ∧ model st' = None ∧ modelPklFile st' = None
           ∧ modelConfigFile st' = None.
Proof.
  assert (Hf : training_frame Sample.unpaid = []) by reflexivity.
  split; [exact Hf|].
  destruct (train_without_rows_changes_nothing Sample.unpaid Hf)
    as (st' & Hrun & Hm & Hp & Hc & _).
  exists st'. auto.
Defined.

(** The sample table with four pays of 10 and one of 10000 trains on 4
    rows; the one with pays 75, 3, 15 and 15 trains on 3, without the row
    paid 3. *)
Lemma training_rows_tukey_witness :
  map pay (jobs Sample.outlier)
  = [Some 10; Some 10; Some 10; Some 10; Some 10000]%float
  ∧ length (training_frame Sample.outlier) = 4%nat
  ∧ modelConfigFile (_train Sample.outlier).2
    = Some {| dbChangeCounter := 0; lastTrainedRowCount := 4 |}
  ∧ map (λ r, r.1.2) (training_frame Sample.quartiles) = [75; 15; 15]%float
  ∧ modelConfigFile (_train Sample.quartiles).2
    = Some {| dbChangeCounter := 0; lastTrainedRowCount := 3 |}.
Proof.
  destruct (@training_rows_tukey Sample.lib) as (_ & _ & _ & _ & Hex & Hq).
  split; [reflexivity|].
  destruct (Hex eq_refl eq_refl Sample.outlier eq_refl) as [Hl Hc].
  destruct (Hq eq_refl eq_refl eq_refl Sample.quartiles eq_refl) as [Hl' Hc'].
  auto.
Defined.

(** C6, the claim as written fails: a cold start next to a model.pkl that
    does not unpickle raises out of [predict], and no training happens. *)
Lemma unreadable_artifact_raises :
  model Sample.broken_pkl = None
  ∧ shouldRetrain Sample.broken_pkl = false
  ∧ modelPklFile Sample.broken_pkl = Some Unreadable
  ∧ (predict [1] Sample.broken_pkl).1 = Raise UnpicklingError
  ∧ fetches_since Sample.broken_pkl (predict [1] Sample.broken_pkl).2 = [].
Proof. repeat split. Qed.

(** A cold start without model.pkl trains; one next to an unreadable
    model.pkl raises. *)
Lemma cold_start_artifact_witness :
  model (predict [1] Sample.outlier).2 = Some (fitted_model Sample.outlier)
  ∧ (predict [1] Sample.broken_pkl).1 = Raise UnpicklingError.
Proof.
  split.
  - apply (cold_start_artifact [1] Sample.outlier); try reflexivity;
      discriminate.
  - apply (cold_start_artifact [1] Sample.broken_pkl); try reflexivity;
      discriminate.
Defined.

(** With 7 cached and 8 not, [predict([7; 8])] fetches 8 only; after
    [markDirtyIDs([7])], [predict([7])] fetches 7 again. *)
Lemma incremental_path_witness :
  fetches_since Sample.warm (predict [7; 8] Sample.warm).2
  = [Execute (SelectFeaturesIn [8])]
  ∧ predictionCache (predict [7; 8] Sample.warm).2 !! 7
    = predictionCache Sample.warm !! 7
  ∧ (let marked := (markDirtyIDs [7] Sample.warm).2 in
     fetches_since marked (predict [7] marked).2
     = [Execute (SelectFeaturesIn [7])]).
Proof.
  destruct (@incremental_path_fetches_dirty_only Sample.lib)
    as (_ & Hpath & Hlaw).
  destruct (Hpath [7; 8] Sample.warm 3%float) as [Hf Hc];
    [discriminate|reflexivity|reflexivity|].
  split; [exact Hf|]. split.
  - apply Hc. cbv. intros Hin. apply list_elem_of_In in Hin.
    destruct Hin as [Hin|[]]. discriminate Hin.
  - apply (Hlaw 7 7 Sample.warm 3%float); reflexivity.
Defined.

(** C8, the claim as written fails: with 3 changes on 10 rows and no paid
    job left, the first call returns and the second call returns the same
    mapping, but it runs both queries again. *)
Lemma second_call_fetches_again :
  let first := predict [1] Sample.stale in
  let second := predict [1] first.2 in
  first.1 = Return {[ 1 := 3%float ]}
  ∧ second.1 = Return {[ 1 := 3%float ]}
  ∧ fetches_since first.2 second.2
    = [Execute SelectFeaturesAndPay; Execute SelectAllFeatures].
Proof. repeat split. Qed.

(** A cache hit twice in a row: same mapping, no query. *)
Lemma predict_twice_witness :
  (predict [7] Sample.warm).1 = Return {[ 7 := 3%float ]}
  ∧ (predict [7] (predict [7] Sample.warm).2).1 = Return {[ 7 := 3%float ]}
  ∧ (let st1 := (predict [7] Sample.warm).2 in
     fetches_since st1 (predict [7] st1).2 = []).
Proof.
  assert (Hrun : predict [7] Sample.warm
                 = (Return {[ 7 := 3%float ]}, (predict [7] Sample.warm).2))
    by reflexivity.
  destruct (predict_twice [7] Sample.warm _ _ Hrun) as [Hsame Hnofetch].
  split; [reflexivity|]. split; [exact Hsame|].
  apply Hnofetch. intros [Hf _]. discriminate Hf.
Defined.

(** C10, the claim as written fails: id 2 has neither a cache entry nor a
    row, and the call raises before the final look-up, on the missing
    model. *)
Lemma missing_id_raises_before_lookup :
  predictionCache Sample.unpaid !! 2 = None
  ∧ (2 ∉ map job_id (jobs Sample.unpaid))
  ∧ (predict [2] Sample.unpaid).1 = Raise AttributeError.
Proof.
  split; [reflexivity|]. split; [|reflexivity].
  intros Hin. apply list_elem_of_In in Hin. destruct Hin as [Hin|[]].
  discriminate Hin.
Qed.

(** Over an empty table the final look-up raises [KeyError]. *)
Lemma predict_raises_on_missing_id_witness :
  (predict [2] Sample.empty_table).1 = Raise (KeyError 2).
Proof.
  assert (Hin : 2 ∈ [2]) by left.
  assert (Hx : predictionCache Sample.empty_table !! 2 = None) by reflexivity.
  assert (Hs : 2 ∉ map job_id (jobs Sample.empty_table))
    by (intros Hs; by apply elem_of_nil in Hs).
  destruct (predict_raises_on_missing_id [2] Sample.empty_table 2 Hin Hx Hs)
    as [_ Hkey].
  destruct (Hkey (refresh [2] Sample.empty_table).2 eq_refl)
    as (k & Hrun & Hk & _).
  rewrite Hrun. simpl. f_equal. f_equal.
  apply list_elem_of_In in Hk. destruct Hk as [Hk|[]]. by symmetry.
Defined.

(** ** The further properties on the sample states *)

#[local] Existing Instance Sample.lib.
#[local] Existing Instance Sample.text.

Lemma sample_predicts_rowwise : predicts_rowwise Sample.rowwise.
Proof. intros m X HX. by destruct X. Qed.

Lemma sample_warm_coherent : coherent Sample.rowwise Sample.warm.
Proof.
  intros id v Hv.
  change (predictionCache Sample.warm) with ({[ 7 := 3%float ]} : gmap Z float) in Hv.
  apply lookup_singleton_Some in Hv as [<- <-].
  exists 3%float, (Sample.job 7 (Some 10%float)).
  repeat split. left.
Qed.

Lemma sample_warm_in_sync : in_sync Sample.warm.
Proof. split; [by intros m [= <-]|discriminate]. Qed.

(** One change in the state with 19 changes on 100 rows makes 20; on a
    first run it makes 1 on 0 rows. *)
Lemma incrementDbChangeCounter_accumulates_witness :
  modelConfigFile (incrementDbChangeCounter 1 Sample.nineteen).2
  = Some {| dbChangeCounter := 20; lastTrainedRowCount := 100 |}
  ∧ modelConfigFile (incrementDbChangeCounter 1 Sample.unpaid).2
    = Some {| dbChangeCounter := 1; lastTrainedRowCount := 0 |}.
Proof.
  split.
  - destruct (incrementDbChangeCounter_accumulates 1 0 Sample.nineteen)
      as (Hthere & _).
    apply (Hthere {| dbChangeCounter := 19; lastTrainedRowCount := 100 |}
             eq_refl).
  - destruct (incrementDbChangeCounter_accumulates 1 0 Sample.unpaid)
      as (_ & Hmissing & _).
    apply (Hmissing eq_refl).
Defined.

(** A first read creates the zeroed state; a read of the file of the warm
    state returns its content. *)
Lemma config_file_round_trip_witness :
  (_readModelConfigFilepath Sample.unpaid).1 = Return zeroConfig
  ∧ (_readModelConfigFilepath Sample.warm).1
    = Return {| dbChangeCounter := 0; lastTrainedRowCount := 2 |}.
Proof.
  destruct config_file_round_trip as (_ & Hnew & Hold & _).
  split.
  - apply (Hnew Sample.unpaid). reflexivity.
  - apply (Hold Sample.warm). reflexivity.
Defined.

(** Training over the sample table leaves nothing to retrain for. *)
Lemma train_leaves_settled_state_witness :
  training_frame Sample.outlier ≠ []
  ∧ shouldRetrain (_train Sample.outlier).2 = false.
Proof.
  assert (Hf : training_frame Sample.outlier ≠ []) by discriminate.
  split; [exact Hf|].
  destruct (train_leaves_settled_state Sample.outlier Hf)
    as (_ & _ & _ & _ & _ & Hs & _).
  exact Hs.
Defined.

(** A request that names id 7 twice gets one entry. *)
Lemma predict_returned_mapping_witness :
  (predict [7; 7] Sample.warm).1 = Return {[ 7 := 3%float ]}
  ∧ (size ({[ 7%Z := 3%float ]} : gmap Z float) ≤ 2)%nat.
Proof.
  assert (Hrun : predict [7; 7] Sample.warm
                 = (Return {[ 7 := 3%float ]}, (predict [7; 7] Sample.warm).2))
    by reflexivity.
  split; [reflexivity|].
  apply (predict_returned_mapping [7; 7] Sample.warm _ _ Hrun).
Defined.

(** The warm state is in sync and stays so through a prediction. *)
Lemma model_and_artifact_stay_in_sync_witness :
  in_sync Sample.warm ∧ in_sync (predict [8] Sample.warm).2.
Proof.
  destruct model_and_artifact_stay_in_sync as [_ Hkeep].
  split; [exact sample_warm_in_sync|].
  apply (Hkeep Sample.warm sample_warm_in_sync).
Defined.

(** Over one unpaid job the first call raises; in the warm state it
    returns. *)
Lemma predict_fails_only_without_model_witness :
  (predict [1] Sample.unpaid).1 = Raise AttributeError
  ∧ ∃ r st1, predict [7] Sample.warm = (Return r, st1).
Proof.
  split.
  - assert (Hids : ∀ id, id ∈ [1] → id ∈ map job_id (jobs Sample.unpaid))
      by (intros id Hid; exact Hid).
    destruct (predict_fails_only_without_model [1] Sample.unpaid
                sample_predict_total ltac:(discriminate) Hids
                ltac:(discriminate)) as [Hraise _].
    apply Hraise. split; [|reflexivity].
    split; [reflexivity|]. right. split; reflexivity.
  - assert (Hids : ∀ id, id ∈ [7] → id ∈ map job_id (jobs Sample.warm)).
    { intros id Hid. apply list_elem_of_singleton in Hid as ->. left. }
    destruct (predict_fails_only_without_model [7] Sample.warm
                sample_predict_total ltac:(discriminate) Hids
                ltac:(discriminate)) as [_ Hreturn].
    destruct Hreturn as (r & st1 & Hrun & _).
    + intros [_ Hm]. discriminate Hm.
    + by exists r, st1.
Defined.

(** The warm state is coherent and stays so through a prediction. *)
Lemma cache_stays_coherent_witness :
  coherent Sample.rowwise Sample.warm
  ∧ coherent Sample.rowwise (predict [8] Sample.warm).2.
Proof.
  destruct (cache_stays_coherent Sample.rowwise sample_predicts_rowwise)
    as [_ Hkeep].
  split; [exact sample_warm_coherent|].
  apply (Hkeep Sample.warm sample_warm_coherent).
Defined.

(** After a first rendering of two paid jobs the cache is current. *)
Lemma reachable_cache_is_current_witness :
  let st := (renderTable [1; 2]
               (first_run [Sample.job 1 (Some 10%float);
                           Sample.job 2 (Some 10%float)])).2 in
  reachable st ∧ coherent Sample.rowwise st.
Proof.
  cbv zeta.
  assert (Hr : reachable
                 (renderTable [1; 2]
                    (first_run [Sample.job 1 (Some 10%float);
                                Sample.job 2 (Some 10%float)])).2).
  { eapply reachable_step; [apply reachable_first_run|apply step_render]. }
  split; [exact Hr|].
  apply (reachable_cache_is_current Sample.rowwise _
           sample_predicts_rowwise Hr).
Defined.

(** Rendering both rows of the warm state shows two values, in order. *)
Lemma renderTable_shows_current_predictions_witness :
  (renderTable [7; 8] Sample.warm).1 = Return [(7, 3%float); (8, 3%float)]
  ∧ map fst [(7, 3%float); (8, 3%float)] = [7; 8].
Proof.
  assert (Hrun : renderTable [7; 8] Sample.warm
                 = (Return [(7, 3%float); (8, 3%float)],
                    (renderTable [7; 8] Sample.warm).2))
    by reflexivity.
  split; [reflexivity|].
  apply (renderTable_shows_current_predictions Sample.rowwise [7; 8]
           Sample.warm _ _ sample_predicts_rowwise sample_warm_coherent Hrun).
Defined.

(** Hours of 25 are refused and change nothing; hours of 8 are stored. *)
Lemma sqlUpdateActions_stores_checked_values_witness :
  (sqlUpdateActions hours_worked_column 7 "25" Sample.warm).2 = Sample.warm
  ∧ (sqlUpdateActions hours_worked_column 7 " 8 " Sample.warm).1 = Return Done
  ∧ 7 ∈ map job_id (jobs Sample.warm).
Proof.
  split; [|split; [reflexivity|]].
  - apply (sqlUpdateActions_stores_checked_values
             hours_worked_column 7 "25" Sample.warm).
    discriminate.
  - assert (Hrun : sqlUpdateActions hours_worked_column 7 " 8 " Sample.warm
                   = (Return Done,
                      (sqlUpdateActions hours_worked_column 7 " 8 "
                         Sample.warm).2))
      by reflexivity.
    destruct (sqlUpdateActions_stores_checked_values
                hours_worked_column 7 " 8 " Sample.warm) as [_ Hdone].
    apply (Hdone _ Hrun).
Defined.

(** An edit of the hours of row 7 drops its cached prediction and counts
    one change. *)
Lemma sqlUpdateActions_tells_the_model_witness :
  let st' := (sqlUpdateActions hours_worked_column 7 "8" Sample.warm).2 in
  predictionCache st' = delete 7 (predictionCache Sample.warm)
  ∧ current_config st'
    = {| dbChangeCounter := 1; lastTrainedRowCount := 2 |}.
Proof.
  cbv zeta.
  assert (Hrun : sqlUpdateActions hours_worked_column 7 "8" Sample.warm
                 = (Return Done,
                    (sqlUpdateActions hours_worked_column 7 "8"
                       Sample.warm).2))
    by reflexivity.
  destruct (sqlUpdateActions_tells_the_model _ _ _ _ _ Hrun)
    as (Hk & Hc & _).
  split; [exact Hk|exact Hc].
Defined.

(** Deleting row 7 of the warm state leaves row 8 and no entry for 7. *)
Lemma sqlDeleteActions_forgets_deleted_rows_witness :
  let st' := (sqlDeleteActions [7] true [8] Sample.warm).2 in
  map job_id (jobs st') = [8] ∧ predictionCache st' !! 7 = None.
Proof.
  cbv zeta.
  destruct (sqlDeleteActions_forgets_deleted_rows [7] [8] Sample.warm)
    as [_ Hdel].
  destruct (Hdel ltac:(discriminate)) as (_ & Hjobs & Hgone & _).
  split.
  - rewrite Hjobs. reflexivity.
  - apply Hgone. left.
Defined.

(** Clearing the warm state leaves a first run over an empty table. *)
Lemma handleClearDb_starts_over_witness :
  ∃ st', handleClearDb true Sample.warm = (Return Done, st')
         ∧ same_memory st' (first_run []).
Proof.
  destruct (handleClearDb_starts_over true Sample.warm) as (_ & _ & Hclear).
  destruct (Hclear ltac:(discriminate) eq_refl) as (st' & Hrun & Hsame & _).
  by exists st'.
Defined.

(** Appending a row to the table of the state with 19 changes on 100 rows
    does not make the next call retrain. *)
Lemma handleAppendFromCsv_is_not_counted_witness :
  let st' := (handleAppendFromCsv (CsvRows [Sample.job 2 (Some 10%float)])
                Sample.nineteen).2 in
  length (jobs st') = 2%nat
  ∧ (retrains [1] st' ↔ retrains [1] Sample.nineteen).
Proof.
  cbv zeta.
  destruct (handleAppendFromCsv_is_not_counted
              (CsvRows [Sample.job 2 (Some 10%float)]) Sample.nineteen)
    as (_ & Hj & _ & _ & _ & _ & _ & Hiff).
  split.
  - rewrite Hj. reflexivity.
  - apply Hiff. discriminate.
Defined.

(** A submitted dialog with hours of 8 and no pay gives a row without
    pay. *)
Lemma accepted_dialog_gives_checked_row_witness :
  handleSubmit "mowing" "garden" "8" = Return Done
  ∧ getValuesAsTuple "2025-06-01" "mowing" "garden" "8" "$ "
    = Return ("2025-06-01", "mowing", "garden", 8%float, None)
  ∧ "mowing" ≠ "".
Proof.
  assert (Hok : handleSubmit "mowing" "garden" "8" = Return Done)
    by reflexivity.
  split; [exact Hok|]. split; [reflexivity|].
  apply (accepted_dialog_gives_checked_row
           "2025-06-01" "mowing" "garden" "8" "$ " Hok).
Defined.


(** The table with one unpaid job cannot be rendered, and a second unpaid
    job cannot be inserted without the handler raising. *)
Lemma table_without_pay_cannot_be_rendered_witness :
  (renderTable [1] Sample.unpaid).1 = Raise AttributeError
  ∧ (sqlInsertActions (Some (Sample.job 2 None)) [1] Sample.unpaid).1
    = Raise AttributeError.
Proof.
  assert (Hpay : ∀ j, j ∈ jobs Sample.unpaid → pay j = None).
  { intros j Hj. apply list_elem_of_singleton in Hj. by subst j. }
  destruct (table_without_pay_cannot_be_rendered [1] Sample.unpaid
              ltac:(discriminate) Hpay eq_refl eq_refl) as [Hrender Hinsert].
  split.
  - apply Hrender. discriminate.
  - apply (Hinsert (Sample.job 2 None) eq_refl).
Defined.
